(** * EglPreview: the X/EGL preview window of rpicam-apps

    A shallow embedding of [src/preview/egl_preview.cpp]: the imported-buffer
    registry ([buffers_]), the one-frame-delayed release of buffers
    ([last_fd_] and [done_callback_]), the overlay texture and the
    aspect-fit set-up of the video quad.

    The class talks to three foreign interfaces (EGL, OpenGL ES and the C
    library).  Every foreign call the C++ makes is recorded, in order, in a
    trace of [Call]s; everything a foreign call returns is read from an
    [Env] record, one per call of a member function.  A C++ exception is an
    outcome [Thrown], and the object keeps whatever the function had already
    written when it was thrown.

    The rest of the file has embeddings of its own, with their own foreign
    calls: the constructor with makeWindow and no_border, the event loop of
    Quit and the destructor; and, from the second source file, the
    constructor, the destructor and outputBuffer of [GStreamOutput]. *)

From Stdlib Require Import ZArith String Ascii List Strings.Byte SpecFloat DecimalString.
From Stdlib Require DecimalZ DecimalPos.
From Stdlib Require Import Recdef.
From stdpp Require Import gmap strings list sorting.

Open Scope Z_scope.

(** ** C integers *)

Module CInt.
(** [unsigned int] arithmetic is modulo [2^32]. *)
Definition wrap_unsigned (z : Z) : Z := z mod 2 ^ 32.

(** Conversion to a 32-bit signed integer ([int], [EGLint]). *)
Definition to_int (z : Z) : Z := (z + 2 ^ 31) mod 2 ^ 32 - 2 ^ 31.

Definition umul (a b : Z) : Z := wrap_unsigned (a * b).
Definition uadd (a b : Z) : Z := wrap_unsigned (a + b).
(** Division of unsigned operands; the divisor is the literal 2. *)
Definition udiv (a b : Z) : Z := a / b.
(** Division of [int]s truncates toward zero. *)
Definition sdiv (a b : Z) : Z := Z.quot a b.

(** [std::to_string(int)]. *)
Definition to_string (z : Z) : string := NilZero.string_of_int (Z.to_int z).
End CInt.

(** ** IEEE-754 single and double precision, after the Standard Library's
    [SpecFloat] *)

Module F32.
Definition prec : Z := 24.
Definition emax : Z := 128.

(** [(float) z] for an [int] z: round to nearest, ties to even. *)
Definition of_int (z : Z) : spec_float := binary_normalize prec emax z 0 false.
Definition div : spec_float → spec_float → spec_float := SFdiv prec emax.
Definition ltb : spec_float → spec_float → bool := SFltb.
Definition opp : spec_float → spec_float := SFopp.

(** [std::max(a, b)] is [(a < b) ? b : a]. *)
Definition max (a b : spec_float) : spec_float := if ltb a b then b else a.

Definition zero : spec_float := S754_zero false.
Definition one : spec_float := of_int 1.
Definition half : spec_float := div one (of_int 2).
End F32.

Module F64.
Definition prec : Z := 53.
Definition emax : Z := 1024.

(** Promotion of a [float] to [double] is exact. *)
Definition of_float (x : spec_float) : spec_float :=
  match x with
  | S754_finite s m e => binary_round prec emax s m e
  | _ => x
  end.
Definition mul : spec_float → spec_float → spec_float := SFmul prec emax.
Definition two : spec_float := binary_normalize prec emax 2 0 false.
End F64.

(** ** libcamera's colour spaces

    [libcamera::ColorSpace] is a class of the libcamera library: four
    enumerated members compared member-wise by [operator==], and named
    constants for the standard colour spaces. *)

Module ColorSpace.
Inductive Primaries := P_Raw | P_Smpte170m | P_Rec709 | P_Rec2020.
Inductive TransferFunction := TF_Linear | TF_Srgb | TF_Rec709.
Inductive YcbcrEncoding := Y_None | Y_Rec601 | Y_Rec709 | Y_Rec2020.
Inductive Range := R_Full | R_Limited.

Record t := Build {
  primaries : Primaries;
  transferFunction : TransferFunction;
  ycbcrEncoding : YcbcrEncoding;
  range : Range
}.

Definition Raw := Build P_Raw TF_Linear Y_None R_Full.
Definition Srgb := Build P_Rec709 TF_Srgb Y_None R_Full.
Definition Sycc := Build P_Rec709 TF_Srgb Y_Rec601 R_Full.
Definition Smpte170m := Build P_Smpte170m TF_Rec709 Y_Rec601 R_Limited.
Definition Rec709 := Build P_Rec709 TF_Rec709 Y_Rec709 R_Limited.
Definition Rec2020 := Build P_Rec2020 TF_Rec709 Y_Rec2020 R_Limited.

#[global] Instance Primaries_eq_dec : EqDecision Primaries.
Proof. solve_decision. Defined.
#[global] Instance TransferFunction_eq_dec : EqDecision TransferFunction.
Proof. solve_decision. Defined.
#[global] Instance YcbcrEncoding_eq_dec : EqDecision YcbcrEncoding.
Proof. solve_decision. Defined.
#[global] Instance Range_eq_dec : EqDecision Range.
Proof. solve_decision. Defined.
#[global] Instance eq_dec : EqDecision t.
Proof. solve_decision. Defined.

(** [cs == c] for a [std::optional<ColorSpace>] cs and a constant c. *)
Definition opt_eqb (cs : option t) (c : t) : bool :=
  match cs with
  | Some x => bool_decide (x = c)
  | None => false
  end.
End ColorSpace.

(** ** Stream geometry and registry entries *)

Module StreamInfo.
(** [width], [height] and [stride] are [unsigned int]; the pixel format
    member is not read by the preview. *)
Record t := Build {
  width : Z;
  height : Z;
  stride : Z;
  colour_space : option ColorSpace.t
}.
(** [StreamInfo()]. *)
Definition default : t := Build 0 0 0 None.
End StreamInfo.

Module Buffer.
(** [struct Buffer].  Its constructor initialises [fd] only: [size] and
    [texture] are indeterminate ([None]) until [makeBuffer] writes them. *)
Record t := Build {
  fd : Z;
  size : option Z;
  info : StreamInfo.t;
  texture : option Z
}.
(** [Buffer() : fd(-1) {}]. *)
Definition default : t := Build (-1) None StreamInfo.default None.
End Buffer.

(** ** The foreign interfaces *)

Inductive YuvColorSpace := EGL_ITU_REC601_EXT | EGL_ITU_REC709_EXT.
Inductive SampleRange := EGL_YUV_FULL_RANGE_EXT | EGL_YUV_NARROW_RANGE_EXT.
Inductive DrmFormat := DRM_FORMAT_YUV420.

#[global] Instance YuvColorSpace_eq_dec : EqDecision YuvColorSpace.
Proof. solve_decision. Defined.
#[global] Instance SampleRange_eq_dec : EqDecision SampleRange.
Proof. solve_decision. Defined.

(** The attribute list handed to [eglCreateImageKHR], one field per
    attribute name, in the order of the array. *)
Record ImageAttribs := {
  EGL_WIDTH : Z;
  EGL_HEIGHT : Z;
  EGL_LINUX_DRM_FOURCC_EXT : DrmFormat;
  EGL_DMA_BUF_PLANE0_FD_EXT : Z;
  EGL_DMA_BUF_PLANE0_OFFSET_EXT : Z;
  EGL_DMA_BUF_PLANE0_PITCH_EXT : Z;
  EGL_DMA_BUF_PLANE1_FD_EXT : Z;
  EGL_DMA_BUF_PLANE1_OFFSET_EXT : Z;
  EGL_DMA_BUF_PLANE1_PITCH_EXT : Z;
  EGL_DMA_BUF_PLANE2_FD_EXT : Z;
  EGL_DMA_BUF_PLANE2_OFFSET_EXT : Z;
  EGL_DMA_BUF_PLANE2_PITCH_EXT : Z;
  EGL_YUV_COLOR_SPACE_HINT_EXT : YuvColorSpace;
  EGL_SAMPLE_RANGE_HINT_EXT : SampleRange
}.

Inductive ShaderType := GL_VERTEX_SHADER | GL_FRAGMENT_SHADER.
Inductive TextureTarget := GL_TEXTURE_2D | GL_TEXTURE_EXTERNAL_OES.
Inductive TextureParam :=
  GL_TEXTURE_MAG_FILTER | GL_TEXTURE_MIN_FILTER | GL_TEXTURE_WRAP_S | GL_TEXTURE_WRAP_T.
Inductive TextureParamValue := GL_LINEAR | GL_CLAMP_TO_EDGE.
Inductive BlendFactor := GL_SRC_ALPHA | GL_ONE_MINUS_SRC_ALPHA.

(** The one text this file logs. *)
Inductive LogText := unexpected_colour_space (cs : option ColorSpace.t).

(** A value that may be indeterminate (an uninitialised member). *)
Abbreviation indet A := (option A) (only parsing).

(** The foreign calls, and the two outward calls of the preview itself:
    the buffer-done callback and the logger. *)
Inductive Call :=
  (* EGL *)
  | eglMakeCurrent (bind : bool)
      (* true: (egl_surface_, egl_surface_, egl_context_);
         false: (EGL_NO_SURFACE, EGL_NO_SURFACE, EGL_NO_CONTEXT) *)
  | eglCreateImageKHR (attribs : ImageAttribs)
  | eglDestroyImageKHR (image : Z)
  | eglSwapBuffers
  (* shaders and programs *)
  | glCreateShader (target : ShaderType)
  | glShaderSource (s : Z) (source : string)
  | glCompileShader (s : Z)
  | glGetShaderiv_COMPILE_STATUS (s : Z)
  | glGetShaderiv_INFO_LOG_LENGTH (s : Z)
  | glGetShaderInfoLog (s : Z)
  | glCreateProgram
  | glAttachShader (prog s : Z)
  | glLinkProgram (prog : Z)
  | glGetProgramiv_LINK_STATUS (prog : Z)
  | glGetProgramiv_INFO_LOG_LENGTH (prog : Z)
  | glGetProgramInfoLog (prog : Z)
  | glUseProgram (prog : indet Z)
  | glGetAttribLocation (prog : indet Z) (name : string)
  | glGetUniformLocation (prog : indet Z) (name : string)
  | glUniform1i (location : Z) (v : Z)
  (* vertex arrays; the pointer is shown by the floats it points to *)
  | glVertexAttribPointer (index : Z) (pointer : indet (list spec_float))
  | glEnableVertexAttribArray (index : Z)
  (* textures *)
  | glGenTextures
  | glBindTexture (target : TextureTarget) (texture : indet Z)
  | glTexParameteri (target : TextureTarget) (pname : TextureParam) (v : TextureParamValue)
  | glTexImage2D_RGBA8 (width height : Z) (pixels : option (list byte))
  | glEGLImageTargetTexture2DOES (image : Z)
  | glDeleteTextures (texture : indet Z)
  (* drawing *)
  | glBlendFunc (sfactor dfactor : BlendFactor)
  | glEnable_BLEND
  | glClearColor_0000
  | glClear_COLOR_BUFFER_BIT
  | glDrawArrays_TRIANGLE_FAN (first count : Z)
  (* outward *)
  | done_callback_ (fd : Z)
  | LOG (level : Z) (text : LogText).

Record ShaderReply := {
  shader_name : Z;          (* glCreateShader *)
  shader_ok : bool;         (* GL_COMPILE_STATUS *)
  shader_log : string       (* glGetShaderInfoLog *)
}.

Record ProgramReply := {
  program_name : Z;         (* glCreateProgram *)
  program_ok : bool;        (* GL_LINK_STATUS *)
  program_log_length : Z;   (* GL_INFO_LOG_LENGTH *)
  program_log : string      (* glGetProgramInfoLog *)
}.

(** What the foreign calls return during one call of a member function. *)
Record Env := {
  env_eglMakeCurrent : bool;
  (* snprintf of a format with two double arguments into char vs[256]: the
     text it leaves in the buffer *)
  env_snprintf : string → spec_float → spec_float → string;
  env_shader : ShaderType → string → ShaderReply;
  env_program : Z → Z → ProgramReply;
  env_glGetAttribLocation : string → Z;
  env_glGetUniformLocation : string → Z;
  (* glGenTextures, in setup_overlay and in makeBuffer *)
  env_overlay_texture : Z;
  env_buffer_texture : Z;
  (* None is EGL_NO_IMAGE_KHR *)
  env_eglCreateImageKHR : ImageAttribs → option Z;
  env_eglSwapBuffers : bool
}.

(** ** The preview object *)

(** The members of [class EglPreview] that the display path reads or
    writes (the X11 and EGL handles are constant after construction), and
    the one piece of process-wide state it has. *)
Record State := {
  buffers_ : gmap Z Buffer.t;     (* std::map<int, Buffer>, keyed by the dmabuf fd *)
  last_fd_ : Z;
  first_time_ : bool;
  width_ : Z;                     (* size of the preview window *)
  height_ : Z;
  prog_ : indet Z;
  verts_ : indet (list spec_float);
  overlay_prog_ : indet Z;
  overlay_present_ : bool;
  overlay_texture_ : indet Z;
  (* [const static float verts[]], local to gl_setup: initialised the first
     time control passes its declaration, and never again in the process *)
  gl_setup_verts : option (list spec_float)
}.

Definition set_buffers (f : gmap Z Buffer.t → gmap Z Buffer.t) (s : State) : State :=
  {| buffers_ := f (buffers_ s); last_fd_ := last_fd_ s; first_time_ := first_time_ s;
     width_ := width_ s; height_ := height_ s; prog_ := prog_ s; verts_ := verts_ s;
     overlay_prog_ := overlay_prog_ s; overlay_present_ := overlay_present_ s;
     overlay_texture_ := overlay_texture_ s; gl_setup_verts := gl_setup_verts s |}.

Definition set_last_fd (v : Z) (s : State) : State :=
  {| buffers_ := buffers_ s; last_fd_ := v; first_time_ := first_time_ s;
     width_ := width_ s; height_ := height_ s; prog_ := prog_ s; verts_ := verts_ s;
     overlay_prog_ := overlay_prog_ s; overlay_present_ := overlay_present_ s;
     overlay_texture_ := overlay_texture_ s; gl_setup_verts := gl_setup_verts s |}.

Definition set_first_time (v : bool) (s : State) : State :=
  {| buffers_ := buffers_ s; last_fd_ := last_fd_ s; first_time_ := v;
     width_ := width_ s; height_ := height_ s; prog_ := prog_ s; verts_ := verts_ s;
     overlay_prog_ := overlay_prog_ s; overlay_present_ := overlay_present_ s;
     overlay_texture_ := overlay_texture_ s; gl_setup_verts := gl_setup_verts s |}.

Definition set_prog (v : indet Z) (s : State) : State :=
  {| buffers_ := buffers_ s; last_fd_ := last_fd_ s; first_time_ := first_time_ s;
     width_ := width_ s; height_ := height_ s; prog_ := v; verts_ := verts_ s;
     overlay_prog_ := overlay_prog_ s; overlay_present_ := overlay_present_ s;
     overlay_texture_ := overlay_texture_ s; gl_setup_verts := gl_setup_verts s |}.

Definition set_verts (v : indet (list spec_float)) (s : State) : State :=
  {| buffers_ := buffers_ s; last_fd_ := last_fd_ s; first_time_ := first_time_ s;
     width_ := width_ s; height_ := height_ s; prog_ := prog_ s; verts_ := v;
     overlay_prog_ := overlay_prog_ s; overlay_present_ := overlay_present_ s;
     overlay_texture_ := overlay_texture_ s; gl_setup_verts := gl_setup_verts s |}.

Definition set_overlay_prog (v : indet Z) (s : State) : State :=
  {| buffers_ := buffers_ s; last_fd_ := last_fd_ s; first_time_ := first_time_ s;
     width_ := width_ s; height_ := height_ s; prog_ := prog_ s; verts_ := verts_ s;
     overlay_prog_ := v; overlay_present_ := overlay_present_ s;
     overlay_texture_ := overlay_texture_ s; gl_setup_verts := gl_setup_verts s |}.

Definition set_overlay_present (v : bool) (s : State) : State :=
  {| buffers_ := buffers_ s; last_fd_ := last_fd_ s; first_time_ := first_time_ s;
     width_ := width_ s; height_ := height_ s; prog_ := prog_ s; verts_ := verts_ s;
     overlay_prog_ := overlay_prog_ s; overlay_present_ := v;
     overlay_texture_ := overlay_texture_ s; gl_setup_verts := gl_setup_verts s |}.

Definition set_overlay_texture (v : indet Z) (s : State) : State :=
  {| buffers_ := buffers_ s; last_fd_ := last_fd_ s; first_time_ := first_time_ s;
     width_ := width_ s; height_ := height_ s; prog_ := prog_ s; verts_ := verts_ s;
     overlay_prog_ := overlay_prog_ s; overlay_present_ := overlay_present_ s;
     overlay_texture_ := v; gl_setup_verts := gl_setup_verts s |}.

Definition set_gl_setup_verts (v : option (list spec_float)) (s : State) : State :=
  {| buffers_ := buffers_ s; last_fd_ := last_fd_ s; first_time_ := first_time_ s;
     width_ := width_ s; height_ := height_ s; prog_ := prog_ s; verts_ := verts_ s;
     overlay_prog_ := overlay_prog_ s; overlay_present_ := overlay_present_ s;
     overlay_texture_ := overlay_texture_ s; gl_setup_verts := v |}.

(** ** Member functions run in a state, trace and exception monad *)

Inductive exn := runtime_error (what : string).

Inductive outcome (A : Type) :=
  | Returned (a : A)
  | Thrown (e : exn).
Arguments Returned {A} a.
Arguments Thrown {A} e.

Definition M (A : Type) : Type := State → outcome A * State * list Call.

Definition ret {A} (a : A) : M A := λ s, (Returned a, s, []).

(** Sequencing: an exception in [m] ends the run with the state and the
    trace reached so far. *)
Definition bind {A B} (m : M A) (f : A → M B) : M B := λ s,
  match m s with
  | (Returned a, s1, t1) =>
      match f a s1 with
      | (r, s2, t2) => (r, s2, t1 ++ t2)
      end
  | (Thrown e, s1, t1) => (Thrown e, s1, t1)
  end.

Declare Scope M_scope.
Delimit Scope M_scope with M.
Bind Scope M_scope with M.
Notation "x ← y ; z" := (bind y (λ x : _, z))
  (at level 20, y at level 100, z at level 200, only parsing) : M_scope.
Notation "' x ← y ; z" := (bind y (λ x : _, z))
  (at level 20, x pattern, y at level 100, z at level 200, only parsing) : M_scope.
Notation "x ;; z" := (bind x (λ _, z))
  (at level 100, z at level 200, only parsing, right associativity) : M_scope.
Open Scope M_scope.

Definition throw {A} (e : exn) : M A := λ s, (Thrown e, s, []).
Definition call (c : Call) : M unit := λ s, (Returned tt, s, [c]).
Definition gets {A} (f : State → A) : M A := λ s, (Returned (f s), s, []).
Definition modify (f : State → State) : M unit := λ s, (Returned tt, f s, []).

Fixpoint calls (cs : list Call) : M unit :=
  match cs with
  | [] => ret tt
  | c :: cs' => call c;; calls cs'
  end.

(** The three components of a run. *)
Definition result_of {A} (r : outcome A * State * list Call) : outcome A := r.1.1.
Definition state_of {A} (r : outcome A * State * list Call) : State := r.1.2.
Definition trace_of {A} (r : outcome A * State * list Call) : list Call := r.2.

(** ** Shader sources *)

Definition nl : string := String (ascii_of_nat 10) EmptyString.

Fixpoint unlines (ls : list string) : string :=
  match ls with
  | [] => ""
  | [l] => l
  | l :: ls' => l +:+ nl +:+ unlines ls'
  end.

(** The raw string [vs] of setup_overlay. *)
Definition overlay_vs : string :=
  unlines
  [ "";
    "             attribute vec2 aPosition;";
    "             varying vec2 texcoord;";
    "";
    "             void main()";
    "             {";
    "                 gl_Position = vec4(aPosition * 2.0 - 1.0, 0.0, 1.0);";
    "                 texcoord.x = aPosition.x;";
    "                 texcoord.y = 1.0 - aPosition.y;";
    "             }" ].

(** The raw string [fs] of setup_overlay. *)
Definition overlay_fs : string :=
  unlines
  [ "";
    "            precision mediump float;";
    "            varying vec2 texcoord;";
    "            uniform sampler2D overlay;";
    "";
    "            void main()";
    "            {";
    "                gl_FragColor = texture2D(overlay, texcoord);";
    "            }";
    "            " ].

(** The format string of the video vertex shader in gl_setup. *)
Definition video_vs_format : string :=
  unlines
  [ "attribute vec4 pos;";
    "varying vec2 texcoord;";
    "";
    "void main() {";
    "  gl_Position = pos;";
    "  texcoord.x = pos.x / %f + 0.5;";
    "  texcoord.y = 0.5 - pos.y / %f;";
    "}";
    "" ].

Definition video_fs : string :=
  unlines
  [ "#extension GL_OES_EGL_image_external : enable";
    "precision mediump float;";
    "uniform samplerExternalOES s;";
    "varying vec2 texcoord;";
    "void main() {";
    "  gl_FragColor = texture2D(s, texcoord);";
    "}";
    "" ].

(** The [verts] of the overlay quad, in setup_overlay and in Show. *)
Definition overlay_verts : list spec_float :=
  [ F32.zero; F32.zero;
    F32.one; F32.zero;
    F32.one; F32.one;
    F32.zero; F32.one ].

(** ** The static helpers *)

Definition compile_shader (env : Env) (target : ShaderType) (source : string) : M Z :=
  let r := env_shader env target source in
  let s := shader_name r in
  call (glCreateShader target);;
  call (glShaderSource s source);;
  call (glCompileShader s);;
  call (glGetShaderiv_COMPILE_STATUS s);;
  if shader_ok r then ret s
  else
    call (glGetShaderiv_INFO_LOG_LENGTH s);;
    call (glGetShaderInfoLog s);;
    throw (runtime_error
             ("failed to compile shader: " +:+ shader_log r +:+ nl +:+ "source:" +:+ nl +:+ source)).

Definition link_program (env : Env) (vs fs : Z) : M Z :=
  let r := env_program env vs fs in
  let prog := program_name r in
  call glCreateProgram;;
  call (glAttachShader prog vs);;
  call (glAttachShader prog fs);;
  call (glLinkProgram prog);;
  call (glGetProgramiv_LINK_STATUS prog);;
  if program_ok r then ret prog
  else
    call (glGetProgramiv_INFO_LOG_LENGTH prog);;
    info ← (if 1 <? program_log_length r
            then call (glGetProgramInfoLog prog);; ret (Some (program_log r))
            else ret None);
    throw (runtime_error ("failed to link: " +:+ default "<empty log>" info)).

Definition get_colour_space_info (cs : option ColorSpace.t) : M (YuvColorSpace * SampleRange) :=
  let encoding := EGL_ITU_REC601_EXT in
  let range := EGL_YUV_NARROW_RANGE_EXT in
  if ColorSpace.opt_eqb cs ColorSpace.Sycc then
    ret (encoding, EGL_YUV_FULL_RANGE_EXT)
  else if ColorSpace.opt_eqb cs ColorSpace.Smpte170m then
    ret (encoding, range)
  else if ColorSpace.opt_eqb cs ColorSpace.Rec709 then
    ret (EGL_ITU_REC709_EXT, range)
  else
    call (LOG 1 (unexpected_colour_space cs));;
    ret (encoding, range).

(** ** EglPreview::setup_overlay *)

Definition setup_overlay (env : Env) : M unit :=
  vs_s ← compile_shader env GL_VERTEX_SHADER overlay_vs;
  fs_s ← compile_shader env GL_FRAGMENT_SHADER overlay_fs;
  p ← link_program env vs_s fs_s;
  modify (set_overlay_prog (Some p));;
  let inputAttrib := env_glGetAttribLocation env "aPosition" in
  call (glGetAttribLocation (Some p) "aPosition");;
  call (glVertexAttribPointer inputAttrib (Some overlay_verts));;
  call (glEnableVertexAttribArray inputAttrib);;
  call (glUseProgram (Some p));;
  call (glGetUniformLocation (Some p) "overlay");;
  call (glUniform1i (env_glGetUniformLocation env "overlay") 0);;
  call glGenTextures;;
  let tex := Some (env_overlay_texture env) in
  modify (set_overlay_texture tex);;
  call (glBindTexture GL_TEXTURE_2D tex);;
  call (glTexParameteri GL_TEXTURE_2D GL_TEXTURE_MAG_FILTER GL_LINEAR);;
  call (glTexParameteri GL_TEXTURE_2D GL_TEXTURE_MIN_FILTER GL_LINEAR);;
  call (glTexParameteri GL_TEXTURE_2D GL_TEXTURE_WRAP_S GL_CLAMP_TO_EDGE);;
  call (glTexParameteri GL_TEXTURE_2D GL_TEXTURE_WRAP_T GL_CLAMP_TO_EDGE);;
  w ← gets width_;
  h ← gets height_;
  let overlay_width := CInt.sdiv w 4 in
  let overlay_height := CInt.sdiv h 4 in
  call (glTexImage2D_RGBA8 overlay_width overlay_height None).

(** ** EglPreview::gl_setup *)

(** The two scale factors, as the first five statements compute them. *)
Definition scale_factors (width height window_width window_height : Z)
  : spec_float * spec_float :=
  let w_factor := F32.div (F32.of_int width) (F32.of_int window_width) in
  let h_factor := F32.div (F32.of_int height) (F32.of_int window_height) in
  let max_dimension := F32.max w_factor h_factor in
  (F32.div w_factor max_dimension, F32.div h_factor max_dimension).

Definition quad (w_factor h_factor : spec_float) : list spec_float :=
  [ F32.opp w_factor; F32.opp h_factor;
    w_factor; F32.opp h_factor;
    w_factor; h_factor;
    F32.opp w_factor; h_factor ].

Definition gl_setup (env : Env) (width height window_width window_height : Z) : M unit :=
  let factors := scale_factors width height window_width window_height in
  let w_factor := factors.1 in
  let h_factor := factors.2 in
  let vs := env_snprintf env video_vs_format
                             (F64.mul F64.two (F64.of_float w_factor))
                             (F64.mul F64.two (F64.of_float h_factor)) in
  vs_s ← compile_shader env GL_VERTEX_SHADER vs;
  fs_s ← compile_shader env GL_FRAGMENT_SHADER video_fs;
  p ← link_program env vs_s fs_s;
  modify (set_prog (Some p));;
  call (glUseProgram (Some p));;
  (* const static float verts[] = { -w_factor, ... } *)
  initialised ← gets gl_setup_verts;
  verts ← (match initialised with
           | Some v => ret v
           | None =>
               let v := quad w_factor h_factor in
               modify (set_gl_setup_verts (Some v));; ret v
           end);
  modify (set_verts (Some verts));;
  call (glVertexAttribPointer 0 (Some verts));;
  call (glEnableVertexAttribArray 0);;
  call (glBlendFunc GL_SRC_ALPHA GL_ONE_MINUS_SRC_ALPHA);;
  call glEnable_BLEND.

(** ** EglPreview::makeBuffer *)

Definition import_attribs (fd : Z) (info : StreamInfo.t)
    (encoding : YuvColorSpace) (range : SampleRange) : ImageAttribs :=
  let stride := StreamInfo.stride info in
  let height := StreamInfo.height info in
  {| EGL_WIDTH := CInt.to_int (StreamInfo.width info);
     EGL_HEIGHT := CInt.to_int height;
     EGL_LINUX_DRM_FOURCC_EXT := DRM_FORMAT_YUV420;
     EGL_DMA_BUF_PLANE0_FD_EXT := fd;
     EGL_DMA_BUF_PLANE0_OFFSET_EXT := 0;
     EGL_DMA_BUF_PLANE0_PITCH_EXT := CInt.to_int stride;
     EGL_DMA_BUF_PLANE1_FD_EXT := fd;
     EGL_DMA_BUF_PLANE1_OFFSET_EXT := CInt.to_int (CInt.umul stride height);
     EGL_DMA_BUF_PLANE1_PITCH_EXT := CInt.to_int (CInt.udiv stride 2);
     EGL_DMA_BUF_PLANE2_FD_EXT := fd;
     EGL_DMA_BUF_PLANE2_OFFSET_EXT :=
       CInt.to_int (CInt.uadd (CInt.umul stride height)
                              (CInt.umul (CInt.udiv stride 2) (CInt.udiv height 2)));
     EGL_DMA_BUF_PLANE2_PITCH_EXT := CInt.to_int (CInt.udiv stride 2);
     EGL_YUV_COLOR_SPACE_HINT_EXT := encoding;
     EGL_SAMPLE_RANGE_HINT_EXT := range |}.

(** A write through the reference [Buffer &buffer], which is
    [buffers_[fd]] at the only call site. *)
Definition write_buffer (fd : Z) (f : Buffer.t → Buffer.t) : M unit :=
  modify (set_buffers (alter f fd)).

(** The block guarded by [if (first_time_)]. *)
Definition first_time_setup (env : Env) (info : StreamInfo.t) : M unit :=
  first_time ← gets first_time_;
  if first_time then
    call (eglMakeCurrent true);;
    (if env_eglMakeCurrent env then ret tt
     else throw (runtime_error "eglMakeCurrent failed"));;
    w ← gets width_;
    h ← gets height_;
    gl_setup env (CInt.to_int (StreamInfo.width info)) (CInt.to_int (StreamInfo.height info)) w h;;
    setup_overlay env;;
    modify (set_first_time false)
  else ret tt.

Definition makeBuffer (env : Env) (fd : Z) (size : Z) (info : StreamInfo.t) : M unit :=
  first_time_setup env info;;
  write_buffer fd (λ b, Buffer.Build fd (Some size) info (Buffer.texture b));;
  '(encoding, range) ← get_colour_space_info (StreamInfo.colour_space info);
  let attribs := import_attribs fd info encoding range in
  call (eglCreateImageKHR attribs);;
  match env_eglCreateImageKHR env attribs with
  | None => throw (runtime_error ("failed to import fd " +:+ CInt.to_string fd))
  | Some image =>
      call glGenTextures;;
      let tex := Some (env_buffer_texture env) in
      write_buffer fd (λ b, Buffer.Build (Buffer.fd b) (Buffer.size b) (Buffer.info b) tex);;
      call (glBindTexture GL_TEXTURE_EXTERNAL_OES tex);;
      call (glTexParameteri GL_TEXTURE_EXTERNAL_OES GL_TEXTURE_MIN_FILTER GL_LINEAR);;
      call (glTexParameteri GL_TEXTURE_EXTERNAL_OES GL_TEXTURE_MAG_FILTER GL_LINEAR);;
      call (glEGLImageTargetTexture2DOES image);;
      call (eglDestroyImageKHR image)
  end.

(** ** EglPreview::SetOverlay *)

Definition SetOverlay (buf : option (list byte)) (width height : Z) : M unit :=
  match buf with
  | None => modify (set_overlay_present false)
  | Some pixels =>
      call (eglMakeCurrent true);;
      tex ← gets overlay_texture_;
      call (glBindTexture GL_TEXTURE_2D tex);;
      call (glTexImage2D_RGBA8 width height (Some pixels));;
      modify (set_overlay_present true);;
      call (glBindTexture GL_TEXTURE_2D (Some 0))
  end.

(** ** EglPreview::Show *)

(** [buffers_[fd]]: the entry for [fd], default-constructed and inserted
    when there is none. *)
Definition buffers_at (fd : Z) : M Buffer.t :=
  present ← gets (λ s, buffers_ s !! fd);
  match present with
  | Some b => ret b
  | None => modify (set_buffers (insert fd Buffer.default));; ret Buffer.default
  end.

(** The first three lines of Show: look the fd up in the registry and
    import it when its entry is new.  The result is [buffer.texture] as Show
    reads it afterwards. *)
Definition resolve (env : Env) (fd : Z) (size : Z) (info : StreamInfo.t) : M (indet Z) :=
  buffer ← buffers_at fd;
  (if Buffer.fd buffer =? -1 then makeBuffer env fd size info else ret tt);;
  gets (λ s, buffers_ s !! fd ≫= Buffer.texture).

Definition Show (env : Env) (fd : Z) (size : Z) (info : StreamInfo.t) : M unit :=
  texture ← resolve env fd size info;
  p ← gets prog_;
  call (glUseProgram p);;
  v ← gets verts_;
  call (glVertexAttribPointer 0 v);;
  call (glEnableVertexAttribArray 0);;
  call glClearColor_0000;;
  call glClear_COLOR_BUFFER_BIT;;
  call (glEnableVertexAttribArray 0);;
  call (glBindTexture GL_TEXTURE_EXTERNAL_OES texture);;
  call (glDrawArrays_TRIANGLE_FAN 0 4);;
  overlay ← gets overlay_present_;
  (if overlay then
     op ← gets overlay_prog_;
     call (glUseProgram op);;
     ot ← gets overlay_texture_;
     call (glBindTexture GL_TEXTURE_2D ot);;
     let inputAttrib := env_glGetAttribLocation env "aPosition" in
     call (glGetAttribLocation op "aPosition");;
     call (glVertexAttribPointer inputAttrib (Some overlay_verts));;
     call (glEnableVertexAttribArray inputAttrib);;
     call (glDrawArrays_TRIANGLE_FAN 0 4)
   else ret tt);;
  (* EGLBoolean success [[maybe_unused]] = eglSwapBuffers(...) *)
  let success := env_eglSwapBuffers env in
  call eglSwapBuffers;;
  last ← gets last_fd_;
  (if 0 <=? last then call (done_callback_ last) else ret tt);;
  modify (set_last_fd fd).

(** ** EglPreview::Reset *)

(** [std::map] iterates in ascending key order. *)
Definition key_le (x y : Z * Buffer.t) : Prop := x.1 ≤ y.1.

#[global] Instance key_le_dec x y : Decision (key_le x y).
Proof. unfold key_le. apply _. Defined.

Definition in_key_order (m : gmap Z Buffer.t) : list (Z * Buffer.t) :=
  merge_sort key_le (map_to_list m).

Definition Reset : M unit :=
  bs ← gets buffers_;
  calls (map (λ it, glDeleteTextures (Buffer.texture it.2)) (in_key_order bs));;
  modify (set_buffers (λ _, ∅));;
  modify (set_last_fd (-1));;
  call (eglMakeCurrent false);;
  modify (set_first_time true).

(** ** The constructor *)

(** The object as [EglPreview::EglPreview] leaves it, for a window of the
    given size, in a process that has not run gl_setup before. *)
Definition constructed (width height : Z) : State :=
  {| buffers_ := ∅; last_fd_ := -1; first_time_ := true;
     width_ := width; height_ := height;
     prog_ := None; verts_ := None; overlay_prog_ := None;
     overlay_present_ := false; overlay_texture_ := None;
     gl_setup_verts := None |}.

(** ** Observing a run *)

(** The release protocol as the frame producer sees it: a swap of the
    surface, and a buffer handed back through the callback. *)
Inductive Proto := Swapped | Released (fd : Z).

Definition protocol_of (c : Call) : list Proto :=
  match c with
  | eglSwapBuffers => [Swapped]
  | done_callback_ fd => [Released fd]
  | _ => []
  end.

Definition import_of (c : Call) : list ImageAttribs :=
  match c with
  | eglCreateImageKHR a => [a]
  | _ => []
  end.

Definition log_of (c : Call) : list (Z * LogText) :=
  match c with
  | LOG level text => [(level, text)]
  | _ => []
  end.

Definition image_of (c : Call) : list (Z * Z * option (list byte)) :=
  match c with
  | glTexImage2D_RGBA8 w h pixels => [(w, h, pixels)]
  | _ => []
  end.

Definition deleted_of (c : Call) : list (indet Z) :=
  match c with
  | glDeleteTextures tex => [tex]
  | _ => []
  end.

Definition protocol (t : list Call) : list Proto := t ≫= protocol_of.
Definition imports (t : list Call) : list ImageAttribs := t ≫= import_of.
Definition logs (t : list Call) : list (Z * LogText) := t ≫= log_of.
Definition overlay_images (t : list Call) : list (Z * Z * option (list byte)) := t ≫= image_of.
Definition deleted (t : list Call) : list (indet Z) := t ≫= deleted_of.

(** Calls that none of the observations above sees. *)
Definition quiet (c : Call) : bool :=
  match c with
  | eglSwapBuffers | done_callback_ _ | eglCreateImageKHR _ | LOG _ _
  | glTexImage2D_RGBA8 _ _ _ | glDeleteTextures _ => false
  | _ => true
  end.

(** A frame handed to Show, with what the foreign calls answer during it. *)
Record Frame := {
  frame_env : Env;
  frame_fd : Z;
  frame_size : Z;
  frame_info : StreamInfo.t
}.

Definition present (f : Frame) : M unit :=
  Show (frame_env f) (frame_fd f) (frame_size f) (frame_info f).

(** Consecutive calls of Show, keeping the trace of each call apart.  The
    run stops at the first call that throws. *)
Fixpoint present_all (fs : list Frame) (s : State) : outcome unit * State * list (list Call) :=
  match fs with
  | [] => (Returned tt, s, [])
  | f :: fs' =>
      match present f s with
      | (Returned _, s1, t) =>
          match present_all fs' s1 with
          | (r, s2, ts) => (r, s2, t :: ts)
          end
      | (Thrown e, s1, t) => (Thrown e, s1, [t])
      end
  end.

(** The calls a client can make other than Reset. *)
Inductive Op :=
  | op_Show (f : Frame)
  | op_SetOverlay (buf : option (list byte)) (width height : Z).

Definition run_op (o : Op) : M unit :=
  match o with
  | op_Show f => present f
  | op_SetOverlay buf w h => SetOverlay buf w h
  end.

(** The state after a sequence of such calls, whether or not some of them
    threw (the caller may catch and go on). *)
Fixpoint after_ops (os : list Op) (s : State) : State :=
  match os with
  | [] => s
  | o :: os' => after_ops os' (state_of (run_op o s))
  end.

(** The same answers, except for eglSwapBuffers. *)
Definition with_eglSwapBuffers (b : bool) (env : Env) : Env :=
  {| env_eglMakeCurrent := env_eglMakeCurrent env;
     env_snprintf := env_snprintf env;
     env_shader := env_shader env;
     env_program := env_program env;
     env_glGetAttribLocation := env_glGetAttribLocation env;
     env_glGetUniformLocation := env_glGetUniformLocation env;
     env_overlay_texture := env_overlay_texture env;
     env_buffer_texture := env_buffer_texture env;
     env_eglCreateImageKHR := env_eglCreateImageKHR env;
     env_eglSwapBuffers := b |}.

(** A handle is a file descriptor: a non-negative [int].  The class keeps
    [-1] for "no handle", in [last_fd_] and in a default-constructed
    [Buffer]. *)
Definition is_handle (fd : Z) : Prop := 0 ≤ fd.

(** ** The colour-space table of the specification *)

Inductive ColourSpaceTag :=
  | tag_Unspecified | tag_Sycc | tag_Smpte170m | tag_Rec709 | tag_other.

Definition tag_of (cs : option ColorSpace.t) : ColourSpaceTag :=
  match cs with
  | None => tag_Unspecified
  | Some c =>
      if decide (c = ColorSpace.Sycc) then tag_Sycc
      else if decide (c = ColorSpace.Smpte170m) then tag_Smpte170m
      else if decide (c = ColorSpace.Rec709) then tag_Rec709
      else tag_other
  end.

Definition spec_colour_table (tag : ColourSpaceTag) : YuvColorSpace * SampleRange :=
  match tag with
  | tag_Unspecified | tag_Smpte170m => (EGL_ITU_REC601_EXT, EGL_YUV_NARROW_RANGE_EXT)
  | tag_Sycc => (EGL_ITU_REC601_EXT, EGL_YUV_FULL_RANGE_EXT)
  | tag_Rec709 => (EGL_ITU_REC709_EXT, EGL_YUV_NARROW_RANGE_EXT)
  | tag_other => (EGL_ITU_REC601_EXT, EGL_YUV_NARROW_RANGE_EXT)
  end.

(** A trace of quiet calls shows nothing. *)
Definition silent (t : list Call) : Prop := forallb quiet t = true.

(** The members that only Show, Reset and SetOverlay write. *)
Definition same_core (s s' : State) : Prop :=
  buffers_ s' = buffers_ s ∧ last_fd_ s' = last_fd_ s ∧
  width_ s' = width_ s ∧ height_ s' = height_ s ∧
  overlay_present_ s' = overlay_present_ s.

(** ** The exceptions of the set-up and of the import *)

Definition setup_failure (e : exn) : Prop :=
  e = runtime_error "eglMakeCurrent failed"
  ∨ (∃ rest, e = runtime_error ("failed to compile shader: " +:+ rest))
  ∨ (∃ rest, e = runtime_error ("failed to link: " +:+ rest)).

Definition throws_setup_failure {A} (r : outcome A) : Prop :=
  match r with
  | Returned _ => True
  | Thrown e => setup_failure e
  end.

(** The exception of a failed import: its text ends in the decimal fd. *)
Definition import_failure (fd : Z) : exn :=
  runtime_error ("failed to import fd " +:+ CInt.to_string fd).

(** ** What an import of [fd] passes and leaves *)

(** The log line of get_colour_space_info, for the colour spaces outside its
    three comparisons. *)
Definition colour_log (cs : option ColorSpace.t) : list (Z * LogText) :=
  match tag_of cs with
  | tag_Unspecified | tag_other => [(1, unexpected_colour_space cs)]
  | _ => []
  end.

(** The attributes of the import of [fd] with geometry [info]. *)
Definition attribs_for (fd : Z) (info : StreamInfo.t) : ImageAttribs :=
  let hints := spec_colour_table (tag_of (StreamInfo.colour_space info)) in
  import_attribs fd info hints.1 hints.2.

(** The entry of [fd] when makeBuffer has returned. *)
Definition imported (env : Env) (fd size : Z) (info : StreamInfo.t) : Buffer.t :=
  Buffer.Build fd (Some size) info (Some (env_buffer_texture env)).

(** [fd] has an entry that makeBuffer has claimed: Show will not import it. *)
Definition is_registered (s : State) (fd : Z) : bool :=
  match buffers_ s !! fd with
  | Some b => negb (Buffer.fd b =? -1)
  | None => false
  end.

(** The overlay texture image that setup_overlay allocates. *)
Definition overlay_allocation (s : State) : Z * Z * option (list byte) :=
  (CInt.sdiv (width_ s) 4, CInt.sdiv (height_ s) 4, None).

(** A geometry whose plane layout the 32-bit attributes can hold. *)
Definition layout_fits (info : StreamInfo.t) : Prop :=
  let stride := StreamInfo.stride info in
  let height := StreamInfo.height info in
  0 ≤ stride < 2 ^ 31 ∧ 0 ≤ height ∧
  stride * height + (stride / 2) * (height / 2) < 2 ^ 31.

(** ** The calls of Show after the registry look-up *)

Definition draw_calls (env : Env) (s : State) (texture : indet Z) : list Call :=
  [ glUseProgram (prog_ s);
    glVertexAttribPointer 0 (verts_ s);
    glEnableVertexAttribArray 0;
    glClearColor_0000;
    glClear_COLOR_BUFFER_BIT;
    glEnableVertexAttribArray 0;
    glBindTexture GL_TEXTURE_EXTERNAL_OES texture;
    glDrawArrays_TRIANGLE_FAN 0 4 ]
  ++ (if overlay_present_ s then
        [ glUseProgram (overlay_prog_ s);
          glBindTexture GL_TEXTURE_2D (overlay_texture_ s);
          glGetAttribLocation (overlay_prog_ s) "aPosition";
          glVertexAttribPointer (env_glGetAttribLocation env "aPosition") (Some overlay_verts);
          glEnableVertexAttribArray (env_glGetAttribLocation env "aPosition");
          glDrawArrays_TRIANGLE_FAN 0 4 ]
      else []).

Definition release_calls (last : Z) : list Call :=
  if 0 <=? last then [done_callback_ last] else [].

(** ** Sample inputs *)

(** A driver that accepts everything. *)
Definition sample_env : Env :=
  {| env_eglMakeCurrent := true;
     env_snprintf := λ format _ _, format;
     env_shader := λ target _,
       {| shader_name := match target with GL_VERTEX_SHADER => 1 | GL_FRAGMENT_SHADER => 2 end;
          shader_ok := true; shader_log := "" |};
     env_program := λ _ _,
       {| program_name := 3; program_ok := true; program_log_length := 0; program_log := "" |};
     env_glGetAttribLocation := λ _, 0;
     env_glGetUniformLocation := λ _, 0;
     env_overlay_texture := 10;
     env_buffer_texture := 11;
     env_eglCreateImageKHR := λ _, Some 77;
     env_eglSwapBuffers := true |}.

(** The same driver, except that it refuses every import. *)
Definition refusing_env : Env :=
  {| env_eglMakeCurrent := true;
     env_snprintf := env_snprintf sample_env;
     env_shader := env_shader sample_env;
     env_program := env_program sample_env;
     env_glGetAttribLocation := env_glGetAttribLocation sample_env;
     env_glGetUniformLocation := env_glGetUniformLocation sample_env;
     env_overlay_texture := 10;
     env_buffer_texture := 11;
     env_eglCreateImageKHR := λ _, None;
     env_eglSwapBuffers := true |}.

(** A driver whose eglMakeCurrent fails. *)
Definition no_context_env : Env :=
  {| env_eglMakeCurrent := false;
     env_snprintf := env_snprintf sample_env;
     env_shader := env_shader sample_env;
     env_program := env_program sample_env;
     env_glGetAttribLocation := env_glGetAttribLocation sample_env;
     env_glGetUniformLocation := env_glGetUniformLocation sample_env;
     env_overlay_texture := 10;
     env_buffer_texture := 11;
     env_eglCreateImageKHR := λ _, Some 77;
     env_eglSwapBuffers := true |}.

Definition sample_info (width height : Z) : StreamInfo.t :=
  StreamInfo.Build width height width (Some ColorSpace.Smpte170m).

(** A 640x480 frame in the buffer [fd]. *)
Definition sample_frame (fd : Z) : Frame :=
  {| frame_env := sample_env; frame_fd := fd; frame_size := 460800;
     frame_info := sample_info 640 480 |}.

(** ** The draws of a run *)




(** ** Code outside the display path

    The constructor, the destructor, Quit and the GStreamer output make
    foreign calls of their own, and some of their paths run into behaviour
    that C++ leaves undefined: a null pointer that is dereferenced, an [int]
    addition that overflows, an indeterminate value that is read. *)

Inductive result (A : Type) :=
  | Done (a : A)
  | Raised (e : exn)
  | Undefined.
Arguments Done {A} a.
Arguments Raised {A} e.
Arguments Undefined {A}.

Module Prog.
Section Prog.
Context {St Ev : Type}.

(** A run from a state: how it ends, the state it leaves and the foreign
    calls it made, in order. *)
Definition t (A : Type) : Type := St → result A * St * list Ev.

Definition ret {A} (a : A) : t A := λ s, (Done a, s, []).

Definition bind {A B} (m : t A) (f : A → t B) : t B := λ s,
  match m s with
  | (Done a, s1, t1) =>
      match f a s1 with
      | (r, s2, t2) => (r, s2, t1 ++ t2)
      end
  | (Raised e, s1, t1) => (Raised e, s1, t1)
  | (Undefined, s1, t1) => (Undefined, s1, t1)
  end.

Definition throw {A} (e : exn) : t A := λ s, (Raised e, s, []).
Definition undefined {A} : t A := λ s, (Undefined, s, []).
Definition call (e : Ev) : t unit := λ s, (Done tt, s, [e]).
Definition gets {A} (f : St → A) : t A := λ s, (Done (f s), s, []).
Definition modify (f : St → St) : t unit := λ s, (Done tt, f s, []).

(** [sat m s Q]: the run of [m] from [s] ends in an outcome, a state and
    a trace that satisfy [Q]. *)
Definition sat {A} (m : t A) (s : St) (Q : result A → St → list Ev → Prop) : Prop :=
  Q (m s).1.1 (m s).1.2 (m s).2.
End Prog.
Arguments t : clear implicits.
End Prog.

Declare Scope prog_scope.
Delimit Scope prog_scope with prog.
Bind Scope prog_scope with Prog.t.
Notation "x ← y ; z" := (Prog.bind y (λ x : _, z))
  (at level 20, y at level 100, z at level 200, only parsing) : prog_scope.
Notation "x ;; z" := (Prog.bind x (λ _, z))
  (at level 100, z at level 200, only parsing, right associativity) : prog_scope.

(** ** The preview window: EglPreview::EglPreview, makeWindow, no_border *)

Module Window.

(** The members of [Options] that the constructor reads, as the [int]
    members [x_], [y_], [width_] and [height_] receive them. *)
Record Options := {
  fullscreen : bool;
  preview_x : Z;
  preview_y : Z;
  preview_width : Z;
  preview_height : Z
}.

(** The members that the constructor and makeWindow write.  Handles and
    atoms are numbers; 0 is the null handle and the atom [None]. *)
Record Members := {
  display_ : Z;
  egl_display_ : Z;
  window_ : Z;
  egl_context_ : Z;
  egl_surface_ : Z;
  wm_delete_window_ : Z;
  x_ : Z;
  y_ : Z;
  width_ : Z;
  height_ : Z;
  max_image_width_ : Z;
  max_image_height_ : Z
}.

Definition set_display (v : Z) (m : Members) : Members :=
  {| display_ := v; egl_display_ := egl_display_ m; window_ := window_ m;
     egl_context_ := egl_context_ m; egl_surface_ := egl_surface_ m;
     wm_delete_window_ := wm_delete_window_ m; x_ := x_ m; y_ := y_ m;
     width_ := width_ m; height_ := height_ m;
     max_image_width_ := max_image_width_ m; max_image_height_ := max_image_height_ m |}.

Definition set_egl_display (v : Z) (m : Members) : Members :=
  {| display_ := display_ m; egl_display_ := v; window_ := window_ m;
     egl_context_ := egl_context_ m; egl_surface_ := egl_surface_ m;
     wm_delete_window_ := wm_delete_window_ m; x_ := x_ m; y_ := y_ m;
     width_ := width_ m; height_ := height_ m;
     max_image_width_ := max_image_width_ m; max_image_height_ := max_image_height_ m |}.

Definition set_window (v : Z) (m : Members) : Members :=
  {| display_ := display_ m; egl_display_ := egl_display_ m; window_ := v;
     egl_context_ := egl_context_ m; egl_surface_ := egl_surface_ m;
     wm_delete_window_ := wm_delete_window_ m; x_ := x_ m; y_ := y_ m;
     width_ := width_ m; height_ := height_ m;
     max_image_width_ := max_image_width_ m; max_image_height_ := max_image_height_ m |}.

Definition set_egl_context (v : Z) (m : Members) : Members :=
  {| display_ := display_ m; egl_display_ := egl_display_ m; window_ := window_ m;
     egl_context_ := v; egl_surface_ := egl_surface_ m;
     wm_delete_window_ := wm_delete_window_ m; x_ := x_ m; y_ := y_ m;
     width_ := width_ m; height_ := height_ m;
     max_image_width_ := max_image_width_ m; max_image_height_ := max_image_height_ m |}.

Definition set_egl_surface (v : Z) (m : Members) : Members :=
  {| display_ := display_ m; egl_display_ := egl_display_ m; window_ := window_ m;
     egl_context_ := egl_context_ m; egl_surface_ := v;
     wm_delete_window_ := wm_delete_window_ m; x_ := x_ m; y_ := y_ m;
     width_ := width_ m; height_ := height_ m;
     max_image_width_ := max_image_width_ m; max_image_height_ := max_image_height_ m |}.

Definition set_wm_delete_window (v : Z) (m : Members) : Members :=
  {| display_ := display_ m; egl_display_ := egl_display_ m; window_ := window_ m;
     egl_context_ := egl_context_ m; egl_surface_ := egl_surface_ m;
     wm_delete_window_ := v; x_ := x_ m; y_ := y_ m;
     width_ := width_ m; height_ := height_ m;
     max_image_width_ := max_image_width_ m; max_image_height_ := max_image_height_ m |}.

Definition set_geometry (x y width height : Z) (m : Members) : Members :=
  {| display_ := display_ m; egl_display_ := egl_display_ m; window_ := window_ m;
     egl_context_ := egl_context_ m; egl_surface_ := egl_surface_ m;
     wm_delete_window_ := wm_delete_window_ m; x_ := x; y_ := y;
     width_ := width; height_ := height;
     max_image_width_ := max_image_width_ m; max_image_height_ := max_image_height_ m |}.

Definition set_max_image (width height : Z) (m : Members) : Members :=
  {| display_ := display_ m; egl_display_ := egl_display_ m; window_ := window_ m;
     egl_context_ := egl_context_ m; egl_surface_ := egl_surface_ m;
     wm_delete_window_ := wm_delete_window_ m; x_ := x_ m; y_ := y_ m;
     width_ := width_ m; height_ := height_ m;
     max_image_width_ := width; max_image_height_ := height |}.

(** [XVisualInfo]: the two members makeWindow reads. *)
Record XVisualInfo := { visual : Z; depth : Z }.

(** The X11, EGL and GL calls of the constructor.  The display, the EGL
    display and the root window are the same in every call and are left
    out. *)
Inductive Ev :=
  | XOpenDisplay
  | eglGetDisplay
  | eglInitialize
  | eglChooseConfig
  | eglGetConfigAttrib_NATIVE_VISUAL_ID (config : indet Z)
  | XGetVisualInfo (visualid : Z)
  | XCreateColormap (visual : Z)
  | XCreateWindow (x y width height : Z) (depth visual colormap : Z)
  | XInternAtom (name : string) (only_if_exists : bool)
  | XChangeProperty (window property type : Z) (data : list (indet Z)) (nelements : Z)
  | XSetNormalHints (window x y width height : Z)
  | XSetStandardProperties (window : Z) (name : string) (x y width height : Z)
  | eglBindAPI_OPENGL_ES
  | eglCreateContext (config : indet Z)
  | XFree
  | XMapWindow (window : Z)
  | XSetWMProtocols (window atom : Z)
  | eglCreateWindowSurface (config : indet Z) (window : Z)
  | eglMakeCurrent_no_surface (context : Z)
  | glGetIntegerv_MAX_TEXTURE_SIZE.

(** What the X server and the EGL driver answer during construction. *)
Record Env := {
  env_XOpenDisplay : Z;                  (* 0: NULL *)
  env_eglGetDisplay : Z;                 (* 0: EGL_NO_DISPLAY *)
  env_eglInitialize : bool;
  (* the macros DisplayWidth and DisplayHeight of the default screen *)
  screen_width : Z;
  screen_height : Z;
  env_eglChooseConfig : bool;
  (* the config it wrote, if it wrote one (num_configs is not looked at) *)
  env_config : indet Z;
  (* None: EGL_FALSE; Some vid: EGL_TRUE, with the visual id written *)
  env_eglGetConfigAttrib : option Z;
  env_XGetVisualInfo : option XVisualInfo;  (* None: NULL *)
  env_XCreateColormap : Z;
  env_XCreateWindow : Z;
  env_XInternAtom : string → Z;          (* 0: None *)
  env_eglCreateContext : Z;              (* 0: EGL_NO_CONTEXT *)
  env_eglCreateWindowSurface : Z;        (* 0: EGL_NO_SURFACE *)
  (* None: the call wrote nothing to its argument *)
  env_glGetIntegerv : option Z
}.

Abbreviation M := (Prog.t Members Ev).

Definition in_int (z : Z) : bool := (- 2 ^ 31 <=? z) && (z <? 2 ^ 31).

(** [a + b > c] on [int]s: the sum must not overflow. *)
Definition sum_exceeds (a b c : Z) : M bool :=
  if in_int (a + b) then Prog.ret (c <? a + b) else Prog.undefined.

Local Open Scope prog_scope.

Definition MWM_HINTS_DECORATIONS : Z := Z.shiftl 1 1.
Definition PROP_MOTIF_WM_HINTS_ELEMENTS : Z := 5.
Definition XA_ATOM : Z := 4.

(** [PropMotifWmHints motif_hints]: flags and decorations are assigned, the
    other three members are not. *)
Definition motif_hints : list (indet Z) :=
  [ Some MWM_HINTS_DECORATIONS; None; Some 0; None; None ].

Definition no_border (env : Env) (window : Z) : M unit :=
  Prog.call (XInternAtom "_MOTIF_WM_HINTS" true);;
  let prop := env_XInternAtom env "_MOTIF_WM_HINTS" in
  if prop =? 0 then Prog.ret tt
  else
    let proptype := prop in
    Prog.call (XChangeProperty window prop proptype motif_hints PROP_MOTIF_WM_HINTS_ELEMENTS);;
    Prog.call (XInternAtom "_NET_WM_STATE_FULLSCREEN" false);;
    let atoms := [ Some (env_XInternAtom env "_NET_WM_STATE_FULLSCREEN"); Some 0 ] in
    Prog.call (XInternAtom "_NET_WM_STATE" false);;
    Prog.call (XChangeProperty window (env_XInternAtom env "_NET_WM_STATE") XA_ATOM atoms 1).

(** The first two statements of makeWindow after its declarations: the
    default size, and the fall-back to the whole screen. *)
Definition place_window (env : Env) (options : Options) : M unit :=
  width ← Prog.gets width_;
  height ← Prog.gets height_;
  (if (width =? 0) || (height =? 0)
   then Prog.modify (λ m, set_geometry (x_ m) (y_ m) 1024 768 m)
   else Prog.ret tt);;
  x ← Prog.gets x_;
  y ← Prog.gets y_;
  width ← Prog.gets width_;
  height ← Prog.gets height_;
  whole ← (if fullscreen options then Prog.ret true
           else
             wide ← sum_exceeds x width (screen_width env);
             if wide then Prog.ret true
             else sum_exceeds y height (screen_height env));
  if whole then Prog.modify (set_geometry 0 0 (screen_width env) (screen_height env))
  else Prog.ret tt.

Definition makeWindow (env : Env) (options : Options) (name : string) : M unit :=
  place_window env options;;
  Prog.call eglChooseConfig;;
  (if env_eglChooseConfig env then Prog.ret tt
   else Prog.throw (runtime_error "couldn't get an EGL visual config"));;
  let config := env_config env in
  Prog.call (eglGetConfigAttrib_NATIVE_VISUAL_ID config);;
  match env_eglGetConfigAttrib env with
  | None => Prog.throw (runtime_error ("eglGetConfigAttrib() failed" +:+ nl))
  | Some vid =>
  Prog.call (XGetVisualInfo vid);;
  match env_XGetVisualInfo env with
  | None => Prog.undefined    (* visinfo->visual *)
  | Some visinfo =>
  Prog.call (XCreateColormap (visual visinfo));;
  x ← Prog.gets x_;
  y ← Prog.gets y_;
  width ← Prog.gets width_;
  height ← Prog.gets height_;
  Prog.call (XCreateWindow x y (CInt.wrap_unsigned width) (CInt.wrap_unsigned height)
               (depth visinfo) (visual visinfo) (env_XCreateColormap env));;
  let window := env_XCreateWindow env in
  Prog.modify (set_window window);;
  (if fullscreen options then no_border env window else Prog.ret tt);;
  Prog.call (XSetNormalHints window x y width height);;
  Prog.call (XSetStandardProperties window name x y width height);;
  Prog.call eglBindAPI_OPENGL_ES;;
  Prog.call (eglCreateContext config);;
  let context := env_eglCreateContext env in
  Prog.modify (set_egl_context context);;
  (if context =? 0 then Prog.throw (runtime_error "eglCreateContext failed")
   else Prog.ret tt);;
  Prog.call XFree;;
  Prog.call (XMapWindow window);;
  Prog.call (XInternAtom "WM_DELETE_WINDOW" false);;
  let atom := env_XInternAtom env "WM_DELETE_WINDOW" in
  Prog.modify (set_wm_delete_window atom);;
  Prog.call (XSetWMProtocols window atom);;
  Prog.call (eglCreateWindowSurface config window);;
  let surface := env_eglCreateWindowSurface env in
  Prog.modify (set_egl_surface surface);;
  (if surface =? 0 then Prog.throw (runtime_error "eglCreateWindowSurface failed")
   else Prog.ret tt);;
  Prog.call (eglMakeCurrent_no_surface context);;
  Prog.call glGetIntegerv_MAX_TEXTURE_SIZE;;
  let max_texture_size := default 0 (env_glGetIntegerv env) in
  Prog.modify (set_max_image (CInt.wrap_unsigned max_texture_size)
                             (CInt.wrap_unsigned max_texture_size));;
  Prog.call (eglMakeCurrent_no_surface 0)
  end end.

(** The body of the constructor.  Its initialiser list sets [last_fd_] and
    [first_time_], members of the display path (see [constructed]). *)
Definition EglPreview (env : Env) (options : Options) : M unit :=
  Prog.call XOpenDisplay;;
  let display := env_XOpenDisplay env in
  Prog.modify (set_display display);;
  (if display =? 0 then Prog.throw (runtime_error "Couldn't open X display")
   else Prog.ret tt);;
  Prog.call eglGetDisplay;;
  let egl_display := env_eglGetDisplay env in
  Prog.modify (set_egl_display egl_display);;
  (if egl_display =? 0 then Prog.throw (runtime_error "eglGetDisplay() failed")
   else Prog.ret tt);;
  Prog.call eglInitialize;;
  (if env_eglInitialize env then Prog.ret tt
   else Prog.throw (runtime_error "eglInitialize() failed"));;
  Prog.modify (set_geometry (preview_x options) (preview_y options)
                            (preview_width options) (preview_height options));;
  makeWindow env options "rpicam-app".

(** *** EglPreview::Quit *)

(** An event of the X queue: a ClientMessage with [xclient.data.l[0]], or
    an event of another type. *)
Inductive XEvent :=
  | ClientMessage (window l0 : Z)
  | other_event (type window : Z).

(** The ClientMessage events of a window. *)
Definition client_message_of (w : Z) (e : XEvent) : bool :=
  match e with
  | ClientMessage window _ => window =? w
  | other_event _ _ => false
  end.

(** [XCheckTypedWindowEvent(display, w, ClientMessage, &event)]: the first
    event of the queue for that window and of that type is taken out of the
    queue; the other events stay as they are. *)
Fixpoint XCheckTypedWindowEvent (w : Z) (queue : list XEvent) : option (XEvent * list XEvent) :=
  match queue with
  | [] => None
  | e :: queue' =>
      if client_message_of w e then Some (e, queue')
      else match XCheckTypedWindowEvent w queue' with
           | Some (event, rest) => Some (event, e :: rest)
           | None => None
           end
  end.

Section Quit.
(** The width of [long] and of [Atom], which is [unsigned long]. *)
Variable long_bits : Z.

(** [static_cast<Atom>(l)] of a [long]. *)
Definition to_Atom (l : Z) : Z := l mod 2 ^ long_bits.

Definition is_delete_window (m : Members) (event : XEvent) : bool :=
  match event with
  | ClientMessage _ l0 => to_Atom l0 =? wm_delete_window_ m
  | other_event _ _ => false
  end.

(** The loop of Quit, on the queue of the X connection: the answer and
    the queue it leaves. *)
Function Quit (m : Members) (queue : list XEvent) {measure length queue}
  : bool * list XEvent :=
  match XCheckTypedWindowEvent (window_ m) queue with
  | Some (event, rest) =>
      if is_delete_window m event then (true, rest) else Quit m rest
  | None => (false, queue)
  end.
Proof.
  intros m queue p event rest _ E _.
  revert event rest E. generalize (window_ m) as w.
  induction queue as [|e queue IH]; intros w event rest; simpl; [done|].
  destruct (client_message_of w e).
  - intros [= <- <-]. lia.
  - destruct (XCheckTypedWindowEvent w queue) as [[e1 q1]|] eqn:E1; [|done].
    intros [= <- <-]. simpl. specialize (IH _ _ _ E1). lia.
Defined.
End Quit.

(** [MaxImageSize(w, h)]: the two values it writes. *)
Definition MaxImageSize (m : Members) : Z * Z :=
  (max_image_width_ m, max_image_height_ m).

(** The object of the display path that the constructor leaves. *)
Definition display_path (m : Members) : State := constructed (width_ m) (height_ m).

(** *** The placement of the window, in closed form *)

(** The size asked for: 1024x768 when either dimension is 0. *)
Definition requested_size (options : Options) : Z * Z :=
  if (preview_width options =? 0) || (preview_height options =? 0) then (1024, 768)
  else (preview_width options, preview_height options).

(** The rectangle asked for is used as it is: the window is not to cover
    the screen and the rectangle does not pass the right or the bottom edge
    of the screen. *)
Definition keeps_request (env : Env) (options : Options) : bool :=
  negb (fullscreen options)
  && (preview_x options + (requested_size options).1 <=? screen_width env)
  && (preview_y options + (requested_size options).2 <=? screen_height env).

(** Where the window is put: x, y, width and height. *)
Definition placement (env : Env) (options : Options) : Z * Z * Z * Z :=
  if keeps_request env options
  then (preview_x options, preview_y options,
        (requested_size options).1, (requested_size options).2)
  else (0, 0, screen_width env, screen_height env).

(** The two sums of the placement, as far as they are evaluated, stay
    within [int]. *)
Definition placement_defined (env : Env) (options : Options) : bool :=
  fullscreen options
  || (in_int (preview_x options + (requested_size options).1)
      && ((screen_width env <? preview_x options + (requested_size options).1)
          || in_int (preview_y options + (requested_size options).2))).

(** *** The calls of a construction that returns *)

(** The calls of no_border. *)
Definition border_calls (env : Env) (window : Z) : list Ev :=
  let prop := env_XInternAtom env "_MOTIF_WM_HINTS" in
  XInternAtom "_MOTIF_WM_HINTS" true ::
  (if prop =? 0 then []
   else [ XChangeProperty window prop prop motif_hints PROP_MOTIF_WM_HINTS_ELEMENTS;
          XInternAtom "_NET_WM_STATE_FULLSCREEN" false;
          XInternAtom "_NET_WM_STATE" false;
          XChangeProperty window (env_XInternAtom env "_NET_WM_STATE") XA_ATOM
            [ Some (env_XInternAtom env "_NET_WM_STATE_FULLSCREEN"); Some 0 ] 1 ]).

(** The calls of makeWindow when it returns, for the visual id and the
    visual that it was given. *)
Definition window_calls (env : Env) (options : Options) (name : string)
    (vid : Z) (visinfo : XVisualInfo) : list Ev :=
  let '(x, y, width, height) := placement env options in
  let window := env_XCreateWindow env in
  let config := env_config env in
  [ eglChooseConfig;
    eglGetConfigAttrib_NATIVE_VISUAL_ID config;
    XGetVisualInfo vid;
    XCreateColormap (visual visinfo);
    XCreateWindow x y (CInt.wrap_unsigned width) (CInt.wrap_unsigned height)
      (depth visinfo) (visual visinfo) (env_XCreateColormap env) ]
  ++ (if fullscreen options then border_calls env window else [])
  ++ [ XSetNormalHints window x y width height;
       XSetStandardProperties window name x y width height;
       eglBindAPI_OPENGL_ES;
       eglCreateContext config;
       XFree;
       XMapWindow window;
       XInternAtom "WM_DELETE_WINDOW" false;
       XSetWMProtocols window (env_XInternAtom env "WM_DELETE_WINDOW");
       eglCreateWindowSurface config window;
       eglMakeCurrent_no_surface (env_eglCreateContext env);
       glGetIntegerv_MAX_TEXTURE_SIZE;
       eglMakeCurrent_no_surface 0 ].

(** The members when the constructor returns. *)
Definition constructed_members (env : Env) (options : Options) : Members :=
  let '(x, y, width, height) := placement env options in
  let max_texture_size := CInt.wrap_unsigned (default 0 (env_glGetIntegerv env)) in
  {| display_ := env_XOpenDisplay env;
     egl_display_ := env_eglGetDisplay env;
     window_ := env_XCreateWindow env;
     egl_context_ := env_eglCreateContext env;
     egl_surface_ := env_eglCreateWindowSurface env;
     wm_delete_window_ := env_XInternAtom env "WM_DELETE_WINDOW";
     x_ := x; y_ := y; width_ := width; height_ := height;
     max_image_width_ := max_texture_size;
     max_image_height_ := max_texture_size |}.

(** *** Sample inputs *)

(** An X server with a 1920x1080 screen and an EGL driver that accept
    everything. *)
Definition sample_env : Env :=
  {| env_XOpenDisplay := 1;
     env_eglGetDisplay := 2;
     env_eglInitialize := true;
     screen_width := 1920;
     screen_height := 1080;
     env_eglChooseConfig := true;
     env_config := Some 3;
     env_eglGetConfigAttrib := Some 33;
     env_XGetVisualInfo := Some {| visual := 4; depth := 24 |};
     env_XCreateColormap := 5;
     env_XCreateWindow := 6;
     env_XInternAtom := λ name, Z.of_nat (String.length name);
     env_eglCreateContext := 7;
     env_eglCreateWindowSurface := 8;
     env_glGetIntegerv := Some 4096 |}.

(** A window at (100, 50) of the default size, and one that covers the
    screen. *)
Definition sample_options : Options :=
  {| fullscreen := false; preview_x := 100; preview_y := 50;
     preview_width := 0; preview_height := 0 |}.

Definition fullscreen_options : Options :=
  {| fullscreen := true; preview_x := 100; preview_y := 50;
     preview_width := 640; preview_height := 480 |}.

(** Storage that holds nothing yet. *)
Definition unset : Members :=
  {| display_ := 0; egl_display_ := 0; window_ := 0; egl_context_ := 0;
     egl_surface_ := 0; wm_delete_window_ := 0; x_ := 0; y_ := 0;
     width_ := 0; height_ := 0; max_image_width_ := 0; max_image_height_ := 0 |}.

End Window.

(** ** EglPreview::~EglPreview *)

Module Teardown.

(** The calls of the display path, and the one call that only the
    destructor makes. *)
Inductive Ev :=
  | display (c : Call)
  | eglDestroyContext.

(** A member function of the display path, run inside the destructor. *)
Definition lift {A} (m : M A) : Prog.t State Ev A := λ s,
  match m s with
  | (Returned a, s', t) => (Done a, s', display <$> t)
  | (Thrown e, s', t) => (Raised e, s', display <$> t)
  end.

Local Open Scope prog_scope.

Definition EglPreview_destructor : Prog.t State Ev unit :=
  lift Reset;;
  Prog.call eglDestroyContext;;
  texture ← Prog.gets overlay_texture_;
  Prog.call (display (glDeleteTextures texture)).

End Teardown.

(** ** GStreamOutput *)

Module GStream.

Inductive GstState := GST_STATE_NULL | GST_STATE_PLAYING.

Definition GST_FLOW_OK : Z := 0.

(** The two lines that outputBuffer logs, with the size they print. *)
Inductive LogText := log_Start (size : Z) | log_Finish (size : Z).

(** The calls into GLib and GStreamer.  A call that returns a new
    reference is shown with the pointer it returned; 0 is the null
    pointer. *)
Inductive Ev :=
  | gst_init
  | gst_parse_launch (description : string) (returned : Z)
  | gst_bin_get_by_name (bin : Z) (name : string) (returned : Z)
  | gst_element_set_state (element : Z) (state : GstState)
  | gst_object_unref (object : Z)
  | LOG (level : Z) (text : LogText)
  | gst_buffer_new_allocate (size : Z) (returned : Z)
  | gst_buffer_map_WRITE (buffer : Z)
  | memcpy (buffer : Z) (bytes : list byte)
  | gst_buffer_unmap (buffer : Z)
  | g_signal_emit_by_name (instance : Z) (signal : string) (buffer : Z)
  | gst_buffer_unref (buffer : Z).

Record Members := {
  pipeline : Z;
  appsrc : Z
}.

(** What GStreamer answers to the constructor. *)
Record Env := {
  env_gst_parse_launch : Z;
  (* the message of the GError it set, if it set one *)
  env_error : option string;
  env_gst_bin_get_by_name : Z
}.

(** What GStreamer answers during one call of outputBuffer. *)
Record BufferEnv := {
  env_gst_buffer_new_allocate : Z;
  env_gst_buffer_map : bool;
  (* the GstFlowReturn that the emission wrote to [ret], if it wrote one *)
  env_push_buffer : option Z
}.

Abbreviation M := (Prog.t Members Ev).
Local Open Scope prog_scope.

(** The body of the constructor, for [options->output]. *)
Definition GStreamOutput (env : Env) (output : string) : M unit :=
  Prog.call gst_init;;
  let error := env_error env in
  let p := env_gst_parse_launch env in
  Prog.call (gst_parse_launch output p);;
  Prog.modify (λ m, {| pipeline := p; appsrc := appsrc m |});;
  (if (p =? 0) || bool_decide (is_Some error) then
     match error with
     | Some message =>
         Prog.throw (runtime_error ("Failed to create GStreamer pipeline: " +:+ message))
     | None => Prog.undefined    (* error->message *)
     end
   else Prog.ret tt);;
  let a := env_gst_bin_get_by_name env in
  Prog.call (gst_bin_get_by_name p "appsrc" a);;
  Prog.modify (λ m, {| pipeline := pipeline m; appsrc := a |});;
  (if a =? 0 then Prog.throw (runtime_error "Pipeline does not contain an appsrc element")
   else Prog.ret tt);;
  Prog.call (gst_element_set_state p GST_STATE_PLAYING).

Definition GStreamOutput_destructor : M unit :=
  p ← Prog.gets pipeline;
  Prog.call (gst_element_set_state p GST_STATE_NULL);;
  (if p =? 0 then Prog.ret tt else Prog.call (gst_object_unref p));;
  a ← Prog.gets appsrc;
  (if a =? 0 then Prog.ret tt else Prog.call (gst_object_unref a)).

(** [outputBuffer(mem, size, timestamp_us, flags)]: [mem] is the [size]
    bytes at the pointer; the last two arguments are not named. *)
Definition outputBuffer (env : BufferEnv) (mem : list byte) (timestamp_us flags : Z) : M unit :=
  let size := Z.of_nat (length mem) in
  Prog.call (LOG 2 (log_Start size));;
  let gst_buffer := env_gst_buffer_new_allocate env in
  Prog.call (gst_buffer_new_allocate size gst_buffer);;
  Prog.call (gst_buffer_map_WRITE gst_buffer);;
  (if env_gst_buffer_map env then
     Prog.call (memcpy gst_buffer mem);;
     Prog.call (gst_buffer_unmap gst_buffer);;
     a ← Prog.gets appsrc;
     Prog.call (g_signal_emit_by_name a "push-buffer" gst_buffer);;
     Prog.call (gst_buffer_unref gst_buffer);;
     match env_push_buffer env with
     | None => Prog.undefined    (* ret is read without having been written *)
     | Some ret =>
         if ret =? GST_FLOW_OK then Prog.ret tt
         else Prog.throw (runtime_error "Failed to push buffer to GStreamer pipeline")
     end
   else
     Prog.call (gst_buffer_unref gst_buffer);;
     Prog.throw (runtime_error "Failed to map GStreamer buffer for writing"));;
  Prog.call (LOG 2 (log_Finish size)).

(** *** References taken and given back *)

(** What a call does to the number of references that the output holds
    on [object]: a call that returns a new reference to it adds one, an
    unref of it takes one away. *)
Definition reference_change (object : Z) (e : Ev) : Z :=
  match e with
  | gst_parse_launch _ returned
  | gst_bin_get_by_name _ _ returned
  | gst_buffer_new_allocate _ returned => if returned =? object then 1 else 0
  | gst_object_unref o
  | gst_buffer_unref o => if o =? object then -1 else 0
  | _ => 0
  end.

Definition references (object : Z) (t : list Ev) : Z :=
  foldr (λ e n, reference_change object e + n) 0 t.

(** One call of outputBuffer, with what GStreamer answers during it. *)
Record Output := {
  out_env : BufferEnv;
  out_mem : list byte;
  out_timestamp_us : Z;
  out_flags : Z
}.

Definition output (o : Output) : M unit :=
  outputBuffer (out_env o) (out_mem o) (out_timestamp_us o) (out_flags o).

(** The calls of a sequence of outputBuffer calls, whether or not some of
    them threw (the caller may catch and go on). *)
Fixpoint outputs (os : list Output) (m : Members) : list Ev :=
  match os with
  | [] => []
  | o :: os' => (output o m).2 ++ outputs os' (output o m).1.2
  end.

(** The calls of a whole life: construction, some calls of outputBuffer,
    destruction. *)
Definition lifetime (env : Env) (description : string) (os : list Output) (m0 : Members)
  : list Ev :=
  let r := GStreamOutput env description m0 in
  r.2 ++ outputs os r.1.2 ++ (GStreamOutput_destructor r.1.2).2.

(** *** Sample inputs *)

(** A pipeline that parses and holds an appsrc element, and one that
    parses and holds none. *)
Definition sample_env : Env :=
  {| env_gst_parse_launch := 1; env_error := None; env_gst_bin_get_by_name := 2 |}.

Definition no_appsrc_env : Env :=
  {| env_gst_parse_launch := 1; env_error := None; env_gst_bin_get_by_name := 0 |}.

(** A buffer of three bytes that is pushed, one whose push is refused and
    one that cannot be mapped. *)
Definition sample_outputs : list Output :=
  [ {| out_env := {| env_gst_buffer_new_allocate := 10; env_gst_buffer_map := true;
                     env_push_buffer := Some GST_FLOW_OK |};
       out_mem := [x01; x02; x03]%byte; out_timestamp_us := 0; out_flags := 0 |};
    {| out_env := {| env_gst_buffer_new_allocate := 11; env_gst_buffer_map := true;
                     env_push_buffer := Some (-2) |};
       out_mem := [x04]%byte; out_timestamp_us := 33333; out_flags := 1 |};
    {| out_env := {| env_gst_buffer_new_allocate := 12; env_gst_buffer_map := false;
                     env_push_buffer := None |};
       out_mem := []; out_timestamp_us := 66666; out_flags := 0 |} ].

Definition unset : Members := {| pipeline := 0; appsrc := 0 |}.

End GStream.

(** ** Reasoning about runs *)

(** [sat m s Q]: the run of [m] from [s] ends in an outcome, a state and
    a trace that satisfy [Q]. *)
Definition sat {A} (m : M A) (s : State) (Q : outcome A → State → list Call → Prop) : Prop :=
  Q (result_of (m s)) (state_of (m s)) (trace_of (m s)).

Lemma sat_bind {A B} (m : M A) (f : A → M B) s Q :
  sat m s (λ r s1 t1,
    match r with
    | Returned a => sat (f a) s1 (λ r2 s2 t2, Q r2 s2 (t1 ++ t2))
    | Thrown e => Q (Thrown e) s1 t1
    end) →
  sat (bind m f) s Q.
Proof.
  unfold sat, bind, result_of, state_of, trace_of.
  destruct (m s) as [[[a|e] s1] t1]; simpl; [|done].
  by destruct (f a s1) as [[r2 s2] t2].
Qed.

Lemma sat_mono {A} (m : M A) s (P Q : outcome A → State → list Call → Prop) :
  sat m s P → (∀ r s' t, P r s' t → Q r s' t) → sat m s Q.
Proof. unfold sat. auto. Qed.

Lemma sat_run {A} (m : M A) s Q r s' t :
  sat m s Q → m s = (r, s', t) → Q r s' t.
Proof. unfold sat. intros H E. by rewrite E in H. Qed.

Ltac wp_prim :=
  unfold sat at 1;
  cbn [ret call gets modify throw write_buffer result_of state_of trace_of fst snd].

Ltac wp :=
  repeat lazymatch goal with
    | |- sat (bind _ _) _ _ => apply sat_bind
    | |- sat (ret _) _ _ => wp_prim
    | |- sat (call _) _ _ => wp_prim
    | |- sat (gets _) _ _ => wp_prim
    | |- sat (modify _) _ _ => wp_prim
    | |- sat (throw _) _ _ => wp_prim
    | |- sat (write_buffer _ _) _ _ => wp_prim
    | |- sat (if ?b then _ else _) _ _ => destruct b eqn:?
    | |- sat (match ?x with Some _ => _ | None => _ end) _ _ => destruct x eqn:?
    | |- sat (let _ := _ in _) _ _ => cbv zeta
    end.

(** Observations distribute over the concatenation of traces. *)
Lemma protocol_app t1 t2 : protocol (t1 ++ t2) = protocol t1 ++ protocol t2.
Proof. apply bind_app. Qed.
Lemma imports_app t1 t2 : imports (t1 ++ t2) = imports t1 ++ imports t2.
Proof. apply bind_app. Qed.
Lemma logs_app t1 t2 : logs (t1 ++ t2) = logs t1 ++ logs t2.
Proof. apply bind_app. Qed.
Lemma overlay_images_app t1 t2 : overlay_images (t1 ++ t2) = overlay_images t1 ++ overlay_images t2.
Proof. apply bind_app. Qed.
Lemma deleted_app t1 t2 : deleted (t1 ++ t2) = deleted t1 ++ deleted t2.
Proof. apply bind_app. Qed.

Lemma silent_nil : silent [].
Proof. done. Qed.

Lemma silent_app t1 t2 : silent t1 → silent t2 → silent (t1 ++ t2).
Proof. unfold silent. rewrite forallb_app. by intros -> ->. Qed.

Lemma silent_cons c t : quiet c = true → silent t → silent (c :: t).
Proof. unfold silent. simpl. by intros -> ->. Qed.

Lemma silent_bind {B} (f : Call → list B) t :
  (∀ c, quiet c = true → f c = []) → silent t → t ≫= f = [].
Proof.
  intros Hf. unfold silent.
  induction t as [|c t IH]; [done|].
  rewrite bind_cons. simpl. intros [Hc Ht]%andb_true_iff.
  by rewrite (Hf c Hc), (IH Ht).
Qed.

Lemma silent_observed t :
  silent t →
  protocol t = [] ∧ imports t = [] ∧ logs t = [] ∧ overlay_images t = [] ∧ deleted t = [].
Proof.
  intros Ht. repeat split; (apply silent_bind; [|done]); by intros [].
Qed.

Create HintDb runs.
#[global] Hint Resolve silent_nil silent_app silent_cons : runs.

Ltac silence :=
  repeat (apply silent_app || apply silent_cons || apply silent_nil); try done.

Ltac finish :=
  split_and?; try done; try silence;
  try (simpl; unfold setup_failure; by eauto).

(** Continue a run through a call whose behaviour a lemma describes. *)
Ltac use spec :=
  eapply sat_mono; [apply spec|]; cbv beta.

Ltac unsilence :=
  repeat match goal with
    | H : silent ?t |- _ =>
        let Hp := fresh in
        pose proof (silent_observed t H) as Hp;
        destruct Hp as (?&?&?&?&?); clear H
    end.

(** Compute the observations of a trace made of known pieces. *)
Ltac observe :=
  unsilence;
  rewrite ?protocol_app, ?imports_app, ?logs_app, ?overlay_images_app;
  repeat match goal with
    | H : protocol ?t = _ |- context [protocol ?t] => rewrite H
    | H : imports ?t = _ |- context [imports ?t] => rewrite H
    | H : logs ?t = _ |- context [logs ?t] => rewrite H
    | H : overlay_images ?t = _ |- context [overlay_images ?t] => rewrite H
    end;
  try reflexivity;
  try (simpl; rewrite ?app_nil_r; reflexivity).

(** ** The helpers, one by one *)

Lemma setup_failure_not_import e fd : setup_failure e → e ≠ import_failure fd.
Proof.
  unfold import_failure.
  intros [->|[[rest ->]|[rest ->]]] [=].
Qed.

Lemma compile_shader_spec env target source s :
  sat (compile_shader env target source) s (λ r s' t,
    s' = s ∧ silent t ∧ throws_setup_failure r).
Proof. unfold compile_shader. wp; finish. Qed.

Lemma link_program_spec env vs fs s :
  sat (link_program env vs fs) s (λ r s' t,
    s' = s ∧ silent t ∧ throws_setup_failure r).
Proof. unfold link_program. wp; finish. Qed.

Lemma gl_setup_spec env width height window_width window_height s :
  sat (gl_setup env width height window_width window_height) s (λ r s' t,
    same_core s s' ∧ first_time_ s' = first_time_ s ∧ silent t ∧
    throws_setup_failure r).
Proof.
  unfold gl_setup. wp.
  use compile_shader_spec. intros [vs_s|e] s1 t1 (-> & Ht1 & He); [|by finish].
  wp. use compile_shader_spec. intros [fs_s|e] s1 t2 (-> & Ht2 & He2); [|by finish].
  wp. use link_program_spec. intros [p|e] s1 t3 (-> & Ht3 & He3); [|by finish].
  wp; finish.
Qed.

Lemma setup_overlay_spec env s :
  sat (setup_overlay env) s (λ r s' t,
    same_core s s' ∧ first_time_ s' = first_time_ s ∧
    protocol t = [] ∧ imports t = [] ∧ logs t = [] ∧
    match r with
    | Returned _ => overlay_images t = [overlay_allocation s]
    | Thrown e => setup_failure e ∧ overlay_images t = []
    end).
Proof.
  unfold setup_overlay, overlay_allocation. wp.
  use compile_shader_spec. intros [vs_s|e] s1 t1 (-> & Ht1 & He).
  2:{ split_and!; try done; observe. }
  wp. use compile_shader_spec. intros [fs_s|e] s1 t2 (-> & Ht2 & He2).
  2:{ split_and!; try done; observe. }
  wp. use link_program_spec. intros [p|e] s1 t3 (-> & Ht3 & He3).
  2:{ split_and!; try done; observe. }
  wp. split_and!; try done; observe.
Qed.

Lemma get_colour_space_info_spec cs s :
  sat (get_colour_space_info cs) s (λ r s' t,
    s' = s ∧ r = Returned (spec_colour_table (tag_of cs)) ∧
    protocol t = [] ∧ imports t = [] ∧ overlay_images t = [] ∧
    logs t = colour_log cs).
Proof.
  unfold get_colour_space_info, colour_log, tag_of, ColorSpace.opt_eqb.
  destruct cs as [c|]; [|by wp].
  wp; repeat case_bool_decide; simplify_eq; repeat case_decide; simplify_eq; done.
Qed.

Lemma first_time_setup_spec env info s :
  sat (first_time_setup env info) s (λ r s' t,
    same_core s s' ∧
    protocol t = [] ∧ imports t = [] ∧ logs t = [] ∧
    (first_time_ s = true → ∃ t', t = eglMakeCurrent true :: t') ∧
    match r with
    | Returned _ =>
        first_time_ s' = false ∧
        overlay_images t = (if first_time_ s then [overlay_allocation s] else [])
    | Thrown e =>
        setup_failure e ∧ first_time_ s = true ∧ first_time_ s' = true ∧
        overlay_images t = []
    end).
Proof.
  unfold first_time_setup. wp.
  - (* eglMakeCurrent succeeded *)
    use gl_setup_spec. intros [[]|e] s1 t1 (Hc & Hf & Ht & He).
    2:{ rewrite Hf. split_and!; try done; try observe. by eexists. }
    wp. use setup_overlay_spec. intros [[]|e] s2 t2 (Hc2 & Hf2 & ? & ? & ? & Ho).
    2:{ destruct Ho. rewrite Hf2, Hf. split_and!; try done; try observe.
        - unfold same_core in *. intuition congruence.
        - by eexists. }
    wp. destruct Hc as (?&?&Hw&Hh&?), Hc2 as (?&?&Hw2&Hh2&?).
    split_and!; try done; try observe.
    + unfold same_core in *; simpl. intuition congruence.
    + by eexists.
    + unfold overlay_allocation. by rewrite Hw, Hh.
  - split_and!; try done; try observe; [by eexists | by left].
  - rewrite Heqb. split_and!; try done.
Qed.

Lemma makeBuffer_spec env fd size info s :
  sat (makeBuffer env fd size info) s (λ r s' t,
    last_fd_ s' = last_fd_ s ∧ width_ s' = width_ s ∧ height_ s' = height_ s ∧
    overlay_present_ s' = overlay_present_ s ∧
    (∀ k, k ≠ fd → buffers_ s' !! k = buffers_ s !! k) ∧
    protocol t = [] ∧
    (first_time_ s = true → ∃ t', t = eglMakeCurrent true :: t') ∧
    match r with
    | Returned _ =>
        first_time_ s' = false ∧
        buffers_ s' !! fd = (λ _, imported env fd size info) <$> buffers_ s !! fd ∧
        imports t = [attribs_for fd info] ∧
        is_Some (env_eglCreateImageKHR env (attribs_for fd info)) ∧
        logs t = colour_log (StreamInfo.colour_space info) ∧
        overlay_images t = (if first_time_ s then [overlay_allocation s] else [])
    | Thrown e =>
        (setup_failure e ∧ first_time_ s = true ∧ imports t = [] ∧ logs t = [] ∧
         buffers_ s' = buffers_ s)
        ∨ (e = import_failure fd ∧ imports t = [attribs_for fd info] ∧
           env_eglCreateImageKHR env (attribs_for fd info) = None ∧
           logs t = colour_log (StreamInfo.colour_space info) ∧
           buffers_ s' !! fd =
             (λ b, Buffer.Build fd (Some size) info (Buffer.texture b)) <$> buffers_ s !! fd)
    end).
Proof.
  unfold makeBuffer. wp.
  use first_time_setup_spec.
  intros [[]|e] s1 t1 ((Hb & Hl & Hw & Hh & Ho) & Hp & Hi & Hlog & Hhd & Hr).
  2:{ destruct Hr as (?&?&?&?). split_and!; try done; [by rewrite Hb|]. left. by rewrite Hb. }
  destruct Hr as [Hft Him].
  wp. use get_colour_space_info_spec.
  intros r s2 t2 (-> & -> & Hp2 & Hi2 & Ho2 & Hl2).
  destruct (spec_colour_table (tag_of (StreamInfo.colour_space info))) as [enc rng] eqn:Etab.
  assert (Hattr : import_attribs fd info enc rng = attribs_for fd info)
    by (unfold attribs_for; by rewrite Etab).
  cbv zeta. rewrite Hattr.
  assert (Hhd' : ∀ u, first_time_ s = true → ∃ t', t1 ++ u = eglMakeCurrent true :: t').
  { intros u [t' ->]%Hhd. by eexists. }
  wp.
  - (* the import succeeded *)
    split_and!; simpl; try done; try observe; try (by apply Hhd').
    + intros k Hk. by rewrite !lookup_alter_ne, Hb.
    + rewrite !lookup_alter_eq, Hb. by destruct (buffers_ s !! fd).
  - (* the import failed *)
    split_and!; simpl; try done; try observe; try (by apply Hhd').
    + intros k Hk. by rewrite !lookup_alter_ne, Hb.
    + right. split_and!; try done; try observe.
      by rewrite lookup_alter_eq, Hb.
Qed.

(** ** The registry look-up *)

Lemma resolve_hit env fd size info s b :
  buffers_ s !! fd = Some b → Buffer.fd b ≠ -1 →
  resolve env fd size info s = (Returned (Buffer.texture b), s, []).
Proof.
  intros Hb Hfd. unfold resolve, buffers_at, bind, gets, ret. rewrite Hb.
  destruct (Z.eqb_spec (Buffer.fd b) (-1)) as [|_]; [done|].
  simpl. by rewrite Hb.
Qed.

Lemma is_registered_true s fd :
  is_registered s fd = true ↔ ∃ b, buffers_ s !! fd = Some b ∧ Buffer.fd b ≠ -1.
Proof.
  unfold is_registered. destruct (buffers_ s !! fd) as [b|].
  - destruct (Z.eqb_spec (Buffer.fd b) (-1)) as [E|E]; simpl; split.
    + done.
    + by intros (? & [= <-] & ?).
    + eauto.
    + done.
  - split; [done|]. by intros (? & ? & ?).
Qed.

Lemma resolve_miss env fd size info s :
  is_registered s fd = false →
  sat (resolve env fd size info) s (λ r s' t,
    last_fd_ s' = last_fd_ s ∧ width_ s' = width_ s ∧ height_ s' = height_ s ∧
    overlay_present_ s' = overlay_present_ s ∧
    (∀ k, k ≠ fd → buffers_ s' !! k = buffers_ s !! k) ∧
    protocol t = [] ∧
    (first_time_ s = true → ∃ t', t = eglMakeCurrent true :: t') ∧
    match r with
    | Returned tex =>
        tex = Some (env_buffer_texture env) ∧
        first_time_ s' = false ∧
        buffers_ s' !! fd = Some (imported env fd size info) ∧
        imports t = [attribs_for fd info] ∧
        is_Some (env_eglCreateImageKHR env (attribs_for fd info)) ∧
        logs t = colour_log (StreamInfo.colour_space info) ∧
        overlay_images t = (if first_time_ s then [overlay_allocation s] else [])
    | Thrown e =>
        (setup_failure e ∧ first_time_ s = true ∧ imports t = [] ∧ logs t = [] ∧
         ∃ b, buffers_ s' !! fd = Some b ∧ Buffer.fd b = -1)
        ∨ (e = import_failure fd ∧ imports t = [attribs_for fd info] ∧
           env_eglCreateImageKHR env (attribs_for fd info) = None ∧
           logs t = colour_log (StreamInfo.colour_space info) ∧
           ∃ b, buffers_ s' !! fd = Some b ∧ Buffer.fd b = fd)
    end).
Proof.
  unfold is_registered, resolve, buffers_at. intros Hreg. wp; try done.
  - (* an entry that no import has claimed *)
    rename t into b0. apply Z.eqb_eq in Heqb.
    use makeBuffer_spec. intros [[]|e] s1 t1 (?&?&?&?&?&?&?&Hr).
    + destruct Hr as (?&Hb&?&?&?&?). rewrite Heqo in Hb. simpl in Hb.
      wp. rewrite Hb. split_and!; simpl; try done; try observe.
      by rewrite app_nil_r.
    + split_and!; try done.
      destruct Hr as [(?&?&?&?&Hb)|(?&?&?&?&Hb)]; [left|right]; split_and!; try done.
      * rewrite Hb. eauto.
      * rewrite Heqo in Hb. simpl in Hb. eauto.
  - (* no entry: operator[] inserts a default one *)
    use makeBuffer_spec. intros [[]|e] s1 t1 (?&?&?&?&Hk&?&?&Hr); simpl in *.
    + destruct Hr as (?&Hb&?&?&?&?). rewrite lookup_insert_eq in Hb. simpl in Hb.
      wp. rewrite Hb. split_and!; simpl; try done; try observe.
      * intros k Hne. by rewrite Hk, lookup_insert_ne.
      * by rewrite app_nil_r.
    + split_and!; try done.
      * intros k Hne. by rewrite Hk, lookup_insert_ne.
      * destruct Hr as [(?&?&?&?&Hb)|(?&?&?&?&Hb)]; [left|right]; split_and!; try done.
        -- rewrite Hb, lookup_insert_eq. eauto.
        -- rewrite lookup_insert_eq in Hb. simpl in Hb. eauto.
Qed.

(** ** Show, as the look-up followed by straight-line code *)

Lemma Show_run env fd size info s :
  Show env fd size info s =
  match resolve env fd size info s with
  | (Returned texture, s1, t1) =>
      (Returned tt, set_last_fd fd s1,
       t1 ++ draw_calls env s1 texture ++ eglSwapBuffers :: release_calls (last_fd_ s1))
  | (Thrown e, s1, t1) => (Thrown e, s1, t1)
  end.
Proof.
  unfold Show, bind at 1.
  destruct (resolve env fd size info s) as [[[texture|e] s1] t1]; [|done].
  unfold draw_calls, release_calls, bind, gets, call, ret, modify.
  destruct (overlay_present_ s1), (0 <=? last_fd_ s1); reflexivity.
Qed.

Lemma resolve_frame env fd size info s :
  sat (resolve env fd size info) s (λ r s' t,
    last_fd_ s' = last_fd_ s ∧ width_ s' = width_ s ∧ height_ s' = height_ s ∧
    overlay_present_ s' = overlay_present_ s ∧
    (∀ k, k ≠ fd → buffers_ s' !! k = buffers_ s !! k) ∧
    protocol t = []).
Proof.
  destruct (is_registered s fd) eqn:Hreg.
  - apply is_registered_true in Hreg as (b & Hb & Hfd).
    unfold sat. by rewrite (resolve_hit _ _ _ _ _ _ Hb Hfd).
  - use resolve_miss; [done|]. intros r s' t. tauto.
Qed.

(** ** The release protocol *)

(** What a call of Show that returns shows to the frame producer. *)
Lemma Show_protocol env fd size info s s' t :
  Show env fd size info s = (Returned tt, s', t) →
  protocol t = Swapped :: protocol (release_calls (last_fd_ s)) ∧ last_fd_ s' = fd.
Proof.
  rewrite Show_run.
  pose proof (resolve_frame env fd size info s) as Hf.
  unfold sat, result_of, state_of, trace_of in Hf.
  destruct (resolve env fd size info s) as [[[texture|e] s1] t1]; [|done].
  simpl in Hf. destruct Hf as (Hl & _ & _ & _ & _ & Hp).
  intros [= <- <-]. split; [|done].
  rewrite !protocol_app, Hp, Hl. unfold draw_calls.
  by destruct (overlay_present_ s1).
Qed.

Lemma release_calls_handle fd :
  is_handle fd → protocol (release_calls fd) = [Released fd].
Proof.
  unfold is_handle, release_calls. intros H.
  by destruct (Z.leb_spec 0 fd); [|lia].
Qed.

Lemma present_all_protocol fs :
  ∀ s s' ts,
    present_all fs s = (Returned tt, s', ts) →
    length ts = length fs
    ∧ (∀ t, ts !! 0%nat = Some t →
         protocol t = Swapped :: protocol (release_calls (last_fd_ s)))
    ∧ (∀ i f t, fs !! i = Some f → ts !! S i = Some t →
         protocol t = Swapped :: protocol (release_calls (frame_fd f)))
    ∧ last_fd_ s' = default (last_fd_ s) (frame_fd <$> last fs).
Proof.
  induction fs as [|f fs IH]; intros s s' ts; simpl.
  - intros [= <- <-]. split_and!; try done.
  - unfold present at 1.
    destruct (Show _ _ _ _ s) as [[[[]|e] s1] t1] eqn:Hshow; [|done].
    destruct (present_all fs s1) as [[r s2] ts'] eqn:Hrest.
    intros [= -> -> <-].
    apply Show_protocol in Hshow as [Hp Hl].
    destruct (IH _ _ _ Hrest) as (Hlen & H0 & HS & Hlast).
    split_and!.
    + simpl. by rewrite Hlen.
    + by intros t [= <-].
    + intros [|i] g t; simpl.
      * intros [= <-] Ht. rewrite <-Hl. by apply H0.
      * apply HS.
    + rewrite Hlast, Hl, last_cons. by destruct (last fs).
Qed.

(** C1. The buffer-release protocol runs one frame late.  For frames
    presented one after the other with no Reset in between, on an object
    whose slot [last_fd_] is empty, each handle a non-negative fd and every
    call of Show returning: the first call swaps and releases nothing; the
    call that presents frame i+1 swaps and then calls the done callback once,
    for the handle of frame i, whether or not the two handles are equal; and
    the handle of the last frame is left in [last_fd_], not released. *)
Theorem release_one_frame_late (fs : list Frame) (s s' : State) (ts : list (list Call)) :
  last_fd_ s = -1 →
  Forall (λ f, is_handle (frame_fd f)) fs →
  present_all fs s = (Returned tt, s', ts) →
  length ts = length fs
  ∧ (∀ t, ts !! 0%nat = Some t → protocol t = [Swapped])
  ∧ (∀ i f t, fs !! i = Some f → ts !! S i = Some t →
       protocol t = [Swapped; Released (frame_fd f)])
  ∧ last_fd_ s' = default (-1) (frame_fd <$> last fs).
Proof.
  intros Hslot Hfds Hrun.
  destruct (present_all_protocol _ _ _ _ Hrun) as (Hlen & H0 & HS & Hlast).
  rewrite Hslot in H0, Hlast.
  split_and!; [done|exact H0| |done].
  intros i f t Hf Ht. rewrite (HS i f t Hf Ht).
  rewrite release_calls_handle; [done|].
  rewrite Forall_lookup in Hfds. by apply (Hfds i f).
Qed.

Lemma tail_observed env s1 texture last :
  let tail := draw_calls env s1 texture ++ eglSwapBuffers :: release_calls last in
  imports tail = [] ∧ logs tail = [] ∧ overlay_images tail = []
  ∧ protocol tail = Swapped :: protocol (release_calls last).
Proof.
  unfold draw_calls, release_calls.
  by destruct (overlay_present_ s1), (0 <=? last).
Qed.

(** The four ways a call of Show can go. *)
Lemma Show_cases env fd size info s :
  let r := Show env fd size info s in
  let A := attribs_for fd info in
  (∀ k, k ≠ fd → buffers_ (state_of r) !! k = buffers_ s !! k)
  ∧ overlay_present_ (state_of r) = overlay_present_ s
  ∧ ((* the fd is registered: no import *)
     (is_registered s fd = true ∧ result_of r = Returned tt ∧
      imports (trace_of r) = [] ∧ logs (trace_of r) = [] ∧
      overlay_images (trace_of r) = [] ∧
      buffers_ (state_of r) = buffers_ s)
     ∨ (* imported *)
     (is_registered s fd = false ∧ result_of r = Returned tt ∧
      imports (trace_of r) = [A] ∧ is_Some (env_eglCreateImageKHR env A) ∧
      logs (trace_of r) = colour_log (StreamInfo.colour_space info) ∧
      overlay_images (trace_of r) = (if first_time_ s then [overlay_allocation s] else []) ∧
      buffers_ (state_of r) !! fd = Some (imported env fd size info))
     ∨ (* the set-up threw *)
     (is_registered s fd = false ∧ first_time_ s = true ∧
      (∃ e, result_of r = Thrown e ∧ setup_failure e) ∧
      imports (trace_of r) = [] ∧ logs (trace_of r) = [] ∧
      protocol (trace_of r) = [] ∧ last_fd_ (state_of r) = last_fd_ s)
     ∨ (* the import failed *)
     (is_registered s fd = false ∧ result_of r = Thrown (import_failure fd) ∧
      imports (trace_of r) = [A] ∧ env_eglCreateImageKHR env A = None ∧
      logs (trace_of r) = colour_log (StreamInfo.colour_space info) ∧
      protocol (trace_of r) = [] ∧ last_fd_ (state_of r) = last_fd_ s)).
Proof.
  cbv zeta. rewrite Show_run.
  destruct (is_registered s fd) eqn:Hreg.
  - apply is_registered_true in Hreg as (b & Hb & Hfd).
    rewrite (resolve_hit _ _ _ _ _ _ Hb Hfd).
    destruct (tail_observed env s (Buffer.texture b) (last_fd_ s)) as (?&?&?&?).
    unfold result_of, state_of, trace_of; cbn [fst snd app].
    split_and!; try done. left. by split_and!.
  - pose proof (resolve_miss env fd size info s Hreg) as Hm.
    unfold sat, result_of, state_of, trace_of in *.
    destruct (resolve env fd size info s) as [[[texture|e] s1] t1]; cbn [fst snd] in *.
    + destruct Hm as (?&?&?&?&?&?&?&?&?&?&?&?&?&?).
      destruct (tail_observed env s1 texture (last_fd_ s1)) as (Hi&Hl&Ho&?).
      split_and!; try done. right; left.
      rewrite imports_app, logs_app, overlay_images_app, Hi, Hl, Ho, !app_nil_r.
      by split_and!.
    + destruct Hm as (?&?&?&?&?&?&?&Hr).
      split_and!; try done. right; right.
      destruct Hr as [(?&?&?&?&?)|(?&?&?&?&?)]; [left|right]; split_and!; eauto.
      congruence.
Qed.

(** ** Registry look-ups are idempotent *)

Lemma resolve_registers env fd size info s texture s1 t1 :
  fd ≠ -1 →
  resolve env fd size info s = (Returned texture, s1, t1) →
  ∃ b, buffers_ s1 !! fd = Some b ∧ Buffer.fd b ≠ -1 ∧ Buffer.texture b = texture.
Proof.
  intros Hfd Hrun.
  destruct (is_registered s fd) eqn:Hreg.
  - apply is_registered_true in Hreg as (b & Hb & Hne).
    rewrite (resolve_hit _ _ _ _ _ _ Hb Hne) in Hrun.
    injection Hrun as <- <- <-. eauto.
  - pose proof (sat_run _ _ _ _ _ _ (resolve_miss env fd size info s Hreg) Hrun) as Hm.
    simpl in Hm. destruct Hm as (_&_&_&_&_&_&_&->&_&Hb&_).
    exists (imported env fd size info). by split_and!.
Qed.

Lemma run_op_registered o s fd b :
  buffers_ s !! fd = Some b → Buffer.fd b ≠ -1 →
  buffers_ (state_of (run_op o s)) !! fd = Some b.
Proof.
  intros Hb Hne. destruct o as [f|buf w h]; simpl.
  - unfold present.
    destruct (Show_cases (frame_env f) (frame_fd f) (frame_size f) (frame_info f) s)
      as (Hother & _ & Hcase).
    destruct (decide (fd = frame_fd f)) as [->|Hfd]; [|by rewrite Hother].
    assert (is_registered s (frame_fd f) = true) as Hreg
      by (apply is_registered_true; eauto).
    destruct Hcase as [(_&_&_&_&_&->)|[Hc|[Hc|Hc]]]; [done|..];
      destruct Hc as [Hc _]; congruence.
  - by destruct buf.
Qed.

Lemma after_ops_registered os :
  ∀ s fd b,
    buffers_ s !! fd = Some b → Buffer.fd b ≠ -1 →
    buffers_ (after_ops os s) !! fd = Some b.
Proof.
  induction os as [|o os IH]; intros s fd b Hb Hne; simpl; [done|].
  apply IH; [|done]. by apply run_op_registered.
Qed.

(** C2. Resolving a handle is idempotent.  Once a look-up of the handle
    [fd] (a non-negative fd) has returned a texture, then after any further
    calls of Show and SetOverlay, whatever their outcome, a look-up of the
    same handle returns the same texture, changes nothing in the object (so
    it adds no entry) and makes no foreign call (so it imports nothing),
    whatever size, geometry and driver answers it is given. *)
Theorem resolve_idempotent env fd size info s texture s1 t1 os env' size' info' :
  is_handle fd →
  resolve env fd size info s = (Returned texture, s1, t1) →
  resolve env' fd size' info' (after_ops os s1) = (Returned texture, after_ops os s1, []).
Proof.
  unfold is_handle. intros Hfd Hrun.
  assert (fd ≠ -1) as Hm1 by lia.
  destruct (resolve_registers _ _ _ _ _ _ _ _ Hm1 Hrun) as (b & Hb & Hne & <-).
  apply resolve_hit; [|done].
  by apply after_ops_registered.
Qed.

(** ** Reset *)

Lemma calls_run cs s : calls cs s = (Returned tt, s, cs).
Proof.
  induction cs as [|c cs IH]; [done|].
  simpl. unfold bind, call. by rewrite IH.
Qed.

Lemma Reset_run s :
  Reset s =
  (Returned tt,
   set_first_time true (set_last_fd (-1) (set_buffers (λ _, ∅) s)),
   map (λ it, glDeleteTextures (Buffer.texture it.2)) (in_key_order (buffers_ s))
   ++ [eglMakeCurrent false]).
Proof.
  unfold Reset, bind at 1, gets.
  unfold bind at 1. rewrite calls_run.
  unfold bind, modify, call. reflexivity.
Qed.

Lemma deleted_textures (l : list (Z * Buffer.t)) :
  deleted (map (λ it, glDeleteTextures (Buffer.texture it.2)) l)
  = (λ it, Buffer.texture it.2) <$> l
  ∧ protocol (map (λ it, glDeleteTextures (Buffer.texture it.2)) l) = [].
Proof.
  induction l as [|it l [IH1 IH2]]; [done|].
  unfold deleted, protocol in *. rewrite map_cons, !bind_cons, IH1, IH2. done.
Qed.

Lemma Show_head env fd size info s :
  first_time_ s = true → is_registered s fd = false →
  ∃ t', (Show env fd size info s).2 = eglMakeCurrent true :: t'.
Proof.
  intros Hfirst Hreg. rewrite Show_run.
  pose proof (resolve_miss env fd size info s Hreg) as Hm.
  unfold sat, result_of, state_of, trace_of in Hm.
  destruct (resolve env fd size info s) as [[[texture|e] s1] t1]; cbn [fst snd] in *;
    destruct Hm as (_&_&_&_&_&_&Hhd&_); destruct (Hhd Hfirst) as [t' ->];
    by eexists.
Qed.

(** C3. Reset returns having destroyed every registry entry (it deletes
    the texture of each, in key order, and clears the map), having emptied
    the slot [last_fd_] with no call of the done callback for the handle the
    slot held, and having set [first_time_] again.  A call of Show
    afterwards, for any handle, seen before or not, starts with the one-time
    set-up and imports the handle from the arguments of that call: when it
    returns, the registry holds the one entry that import made, with the
    newly generated texture, and the call has swapped and released nothing;
    when it throws, it is the set-up or that import that failed. *)
Theorem Reset_postconditions s :
  let r := Reset s in
  let s0 := state_of r in
  result_of r = Returned tt
  ∧ protocol (trace_of r) = []
  ∧ deleted (trace_of r) = (λ it, Buffer.texture it.2) <$> in_key_order (buffers_ s)
  ∧ buffers_ s0 = ∅ ∧ last_fd_ s0 = -1 ∧ first_time_ s0 = true
  ∧ (∀ env fd size info,
       let r' := Show env fd size info s0 in
       (∃ t', trace_of r' = eglMakeCurrent true :: t')
       ∧ match result_of r' with
         | Returned _ =>
             imports (trace_of r') = [attribs_for fd info] ∧
             buffers_ (state_of r') = {[ fd := imported env fd size info ]} ∧
             protocol (trace_of r') = [Swapped] ∧
             last_fd_ (state_of r') = fd
         | Thrown e =>
             (setup_failure e ∧ imports (trace_of r') = [])
             ∨ (e = import_failure fd ∧ imports (trace_of r') = [attribs_for fd info])
         end).
Proof.
  cbv zeta. rewrite Reset_run. unfold result_of, state_of, trace_of. cbn [fst snd].
  destruct (deleted_textures (in_key_order (buffers_ s))) as [Hd Hp].
  split_and!; try done.
  - by rewrite protocol_app, Hp.
  - by rewrite deleted_app, Hd, app_nil_r.
  - intros env fd size info.
    set (s0 := set_first_time true (set_last_fd (-1) (set_buffers (λ _, ∅) s))).
    assert (is_registered s0 fd = false) as Hreg by done.
    split; [by apply Show_head|].
    destruct (Show_cases env fd size info s0) as (Hother & _ & Hcase).
    unfold result_of, state_of, trace_of in *.
    destruct (Show env fd size info s0) as [[r' s'] t] eqn:Hshow. cbn [fst snd] in *.
    destruct Hcase as
      [(Hreg' & _)
      |[(_ & -> & Hi & _ & _ & _ & Hb)
      |[(_ & _ & (e & -> & Hsetup) & Hi & _)
      |(_ & -> & Hi & _)]]]; [congruence| |by left|by right].
    apply Show_protocol in Hshow as [Hp' Hl].
    split_and!; try done.
    apply map_eq. intros k. destruct (decide (k = fd)) as [->|Hne].
    + by rewrite lookup_singleton_eq.
    + by rewrite Hother, lookup_singleton_ne.
Qed.

(** ** The import *)

Lemma Show_imports env fd size info s :
  imports (trace_of (Show env fd size info s)) = []
  ∨ imports (trace_of (Show env fd size info s)) = [attribs_for fd info].
Proof.
  destruct (Show_cases env fd size info s) as (_ & _ & Hcase).
  destruct Hcase as [Hc|[Hc|[Hc|Hc]]]; destruct_and!; eauto.
Qed.

Lemma Show_imports_elem env fd size info s a :
  a ∈ imports (trace_of (Show env fd size info s)) → a = attribs_for fd info.
Proof.
  destruct (Show_imports env fd size info s) as [->| ->].
  - by intros ?%elem_of_nil.
  - by intros ?%list_elem_of_singleton.
Qed.

(** C4. Whatever the geometry, the colour-space and sample-range hints of
    the attribute list that Show passes to eglCreateImageKHR are those of the
    table: BT.601 narrow for no colour space and for Smpte170m, BT.601 full
    for Sycc, BT.709 narrow for Rec709, and BT.601 narrow for any other. *)
Theorem import_colour_hints env fd size info s a :
  a ∈ imports (trace_of (Show env fd size info s)) →
  (EGL_YUV_COLOR_SPACE_HINT_EXT a, EGL_SAMPLE_RANGE_HINT_EXT a)
  = spec_colour_table (tag_of (StreamInfo.colour_space info)).
Proof.
  intros ->%Show_imports_elem.
  unfold attribs_for, import_attribs. simpl.
  by destruct (spec_colour_table _).
Qed.

Lemma to_int_small z : - 2 ^ 31 ≤ z < 2 ^ 31 → CInt.to_int z = z.
Proof.
  intros Hz. unfold CInt.to_int.
  rewrite Z.mod_small; lia.
Qed.

Lemma wrap_unsigned_small z : 0 ≤ z < 2 ^ 32 → CInt.wrap_unsigned z = z.
Proof. intros Hz. unfold CInt.wrap_unsigned. by rewrite Z.mod_small. Qed.

(** C6, as the code has it.  The three plane descriptors of an import name
    the one fd, whatever the geometry.  The offsets are computed in
    [unsigned int] and the attributes are 32-bit signed integers: for a
    geometry whose stride and whose last plane offset fit one, plane 0 is at
    offset 0 with the stride as pitch, plane 1 at offset stride*height and
    plane 2 at stride*height + (stride/2)*(height/2), both with pitch
    stride/2, the divisions rounding down. *)
Theorem import_plane_layout env fd size info s a :
  let stride := StreamInfo.stride info in
  let height := StreamInfo.height info in
  a ∈ imports (trace_of (Show env fd size info s)) →
  (EGL_DMA_BUF_PLANE0_FD_EXT a = fd ∧ EGL_DMA_BUF_PLANE1_FD_EXT a = fd ∧
   EGL_DMA_BUF_PLANE2_FD_EXT a = fd ∧ EGL_DMA_BUF_PLANE0_OFFSET_EXT a = 0)
  ∧ (layout_fits info →
     EGL_DMA_BUF_PLANE0_PITCH_EXT a = stride
     ∧ (EGL_DMA_BUF_PLANE1_OFFSET_EXT a = stride * height ∧
        EGL_DMA_BUF_PLANE1_PITCH_EXT a = stride / 2)
     ∧ (EGL_DMA_BUF_PLANE2_OFFSET_EXT a = stride * height + (stride / 2) * (height / 2) ∧
        EGL_DMA_BUF_PLANE2_PITCH_EXT a = stride / 2)).
Proof.
  intros stride height ->%Show_imports_elem.
  split; [done|]. intros (Hs & Hh & Hfit).
  fold stride height in Hs, Hh, Hfit.
  unfold attribs_for, import_attribs. cbn [EGL_DMA_BUF_PLANE0_PITCH_EXT
    EGL_DMA_BUF_PLANE1_OFFSET_EXT EGL_DMA_BUF_PLANE1_PITCH_EXT
    EGL_DMA_BUF_PLANE2_OFFSET_EXT EGL_DMA_BUF_PLANE2_PITCH_EXT].
  fold stride height. unfold CInt.umul, CInt.uadd, CInt.udiv.
  assert (0 ≤ stride / 2 ≤ stride) by (split; [apply Z.div_pos|apply Z.div_le_upper_bound]; lia).
  assert (0 ≤ height / 2) by (apply Z.div_pos; lia).
  assert (0 ≤ stride * height) by nia.
  assert (0 ≤ stride / 2 * (height / 2)) by nia.
  rewrite !wrap_unsigned_small, !to_int_small; try lia.
  rewrite !wrap_unsigned_small; lia.
Qed.

Lemma to_string_inj fd fd' : CInt.to_string fd = CInt.to_string fd' → fd = fd'.
Proof.
  unfold CInt.to_string. intros Heq.
  apply DecimalZ.to_int_inj.
  assert (Hnn : ∀ z, Z.to_int z ≠ Decimal.Pos Decimal.Nil ∧ Z.to_int z ≠ Decimal.Neg Decimal.Nil).
  { intros [|p|p]; simpl; split; try done;
      intros [= H]; by apply DecimalPos.Unsigned.to_uint_nonnil in H. }
  destruct (Hnn fd) as [? ?], (Hnn fd') as [? ?].
  assert (Some (Z.to_int fd) = Some (Z.to_int fd')) as [= ->]; [|done].
  rewrite <-(NilZero.isi (Z.to_int fd)), <-(NilZero.isi (Z.to_int fd')) by done.
  by rewrite Heq.
Qed.

(** The failed import is the last thing makeBuffer does. *)
Lemma makeBuffer_failure_last env fd size info s :
  sat (makeBuffer env fd size info) s (λ r s' t,
    r = Thrown (import_failure fd) →
    ∃ t0, t = t0 ++ [eglCreateImageKHR (attribs_for fd info)]).
Proof.
  unfold makeBuffer. wp.
  use first_time_setup_spec.
  intros [[]|e] s1 t1 (_ & _ & _ & _ & _ & Hr).
  2:{ destruct Hr as (Hs & _). intros [= ->].
      by apply (setup_failure_not_import _ fd) in Hs. }
  wp. use get_colour_space_info_spec. intros r s2 t2 (-> & -> & _).
  destruct (spec_colour_table (tag_of (StreamInfo.colour_space info))) as [enc rng] eqn:Etab.
  assert (Hattr : import_attribs fd info enc rng = attribs_for fd info)
    by (unfold attribs_for; by rewrite Etab).
  cbv zeta. rewrite Hattr. wp; [done|].
  intros _. exists (t1 ++ t2). by rewrite <-!app_assoc.
Qed.

Lemma Show_failure_last env fd size info s :
  result_of (Show env fd size info s) = Thrown (import_failure fd) →
  ∃ t0, trace_of (Show env fd size info s) = t0 ++ [eglCreateImageKHR (attribs_for fd info)].
Proof.
  rewrite Show_run.
  assert (Hres : sat (resolve env fd size info) s (λ r s' t,
            ∀ e, r = Thrown e → e = import_failure fd →
            ∃ t0, t = t0 ++ [eglCreateImageKHR (attribs_for fd info)])).
  { unfold resolve, buffers_at. wp; try done.
    - use makeBuffer_failure_last. intros [[]|e] s1 t1 H; [by wp|].
      intros ? [= <-] ->. by apply H.
    - use makeBuffer_failure_last. intros [[]|e] s1 t1 H; [by wp|].
      intros ? [= <-] ->. destruct (H eq_refl) as [t0 ->]. by exists t0. }
  unfold sat, result_of, state_of, trace_of in *.
  destruct (resolve env fd size info s) as [[[texture|e] s1] t1]; cbn [fst snd] in *;
    [done|].
  intros [= ->]. by apply (Hres _ eq_refl).
Qed.

(** C7. A call of Show for a handle that is not registered attempts the
    import: unless the one-time set-up throws first, which it can only when
    [first_time_] is set, Show calls eglCreateImageKHR once, with the
    attributes of the handle and of the geometry of this call.  When that
    call returns no image Show throws the import failure, the runtime_error
    whose text is "failed to import fd " followed by the decimal fd, and the
    refused call is the last call it made; when the call returns an image
    Show returns.  For a registered handle Show makes no import and returns.
    So Show throws the import failure exactly when its call of
    eglCreateImageKHR returned no image.  The call is made at most once, and
    after a failure nothing is swapped or released and [last_fd_] is as
    before.  The text determines the fd. *)
Theorem import_failure_propagates env fd size info s :
  let r := Show env fd size info s in
  let A := attribs_for fd info in
  (result_of r = Thrown (import_failure fd)
   ↔ ∃ a, a ∈ imports (trace_of r) ∧ env_eglCreateImageKHR env a = None)
  ∧ (length (imports (trace_of r)) ≤ 1)%nat
  ∧ (result_of r = Thrown (import_failure fd) →
     protocol (trace_of r) = [] ∧ last_fd_ (state_of r) = last_fd_ s)
  ∧ (∀ fd', import_failure fd' = import_failure fd → fd' = fd)
  ∧ (is_registered s fd = false →
     (first_time_ s = true ∧ imports (trace_of r) = [] ∧
      ∃ e, result_of r = Thrown e ∧ setup_failure e)
     ∨ (imports (trace_of r) = [A] ∧
        match env_eglCreateImageKHR env A with
        | None =>
            result_of r = Thrown (import_failure fd) ∧
            ∃ t0, trace_of r = t0 ++ [eglCreateImageKHR A]
        | Some _ => result_of r = Returned tt
        end))
  ∧ (is_registered s fd = true →
     imports (trace_of r) = [] ∧ result_of r = Returned tt).
Proof.
  cbv zeta.
  pose proof (Show_failure_last env fd size info s) as Hlast.
  destruct (Show_cases env fd size info s) as (_ & _ & Hcase).
  destruct Hcase as
    [(Hreg & Hres & Hi & _)
    |[(Hreg & Hres & Hi & [image Hsome] & _)
    |[(Hreg & Hfirst & (e & Hres & Hsetup) & Hi & _ & Hp & Hl)
    |(Hreg & Hres & Hi & Hnone & _ & Hp & Hl)]]];
    rewrite Hres, Hi in *; rewrite Hreg; (split_and!; [split| | | | |]).
  all: try (simpl; lia).
  all: try (intros [= ?]; done).
  all: try (intros (a & Ha%elem_of_nil & _); done).
  all: try (unfold import_failure; intros fd' [= Heq]; by apply to_string_inj).
  all: try done.
  - intros (a & ->%list_elem_of_singleton & Hn). congruence.
  - intros _. right. by rewrite Hsome.
  - intros [= ->]. by apply (setup_failure_not_import _ fd) in Hsetup.
  - intros _. left. eauto.
  - intros _. exists (attribs_for fd info). split; [|done].
    by apply list_elem_of_singleton.
  - intros _. right. rewrite Hnone. auto.
Qed.

(** ** A failing swap *)

Lemma Show_ignores_swap_result b env fd size info s :
  Show (with_eglSwapBuffers b env) fd size info s = Show env fd size info s.
Proof. reflexivity. Qed.

(** C8, as the code has it.  Show reads the result of eglSwapBuffers into
    a variable it never uses: a failing swap is not logged and raises
    nothing.  The call behaves exactly as with a successful swap: when it
    returns it has swapped, then released the handle that was in [last_fd_]
    (when there was one), and has stored the presented handle there; the only
    line it can have logged is the one about the colour space. *)
Theorem swap_failure_ignored env fd size info s :
  let failing := Show (with_eglSwapBuffers false env) fd size info s in
  failing = Show (with_eglSwapBuffers true env) fd size info s
  ∧ (logs (trace_of failing) = []
     ∨ logs (trace_of failing) = colour_log (StreamInfo.colour_space info))
  ∧ (result_of failing = Returned tt →
     protocol (trace_of failing) = Swapped :: protocol (release_calls (last_fd_ s))
     ∧ (is_handle (last_fd_ s) →
        protocol (trace_of failing) = [Swapped; Released (last_fd_ s)])
     ∧ last_fd_ (state_of failing) = fd).
Proof.
  cbv zeta. rewrite !Show_ignores_swap_result.
  split_and!; [done| |].
  - destruct (Show_cases env fd size info s) as (_ & _ & Hcase).
    destruct Hcase as [Hc|[Hc|[Hc|Hc]]]; destruct_and!; eauto.
  - intros Hres.
    destruct (Show env fd size info s) as [[[[]|e] s'] t] eqn:Hrun; [|done].
    apply Show_protocol in Hrun as [Hp Hl].
    unfold result_of, state_of, trace_of; cbn [fst snd].
    split_and!; [done| |done].
    intros Hh. by rewrite Hp, release_calls_handle.
Qed.

(** ** The overlay *)

(** C9, as the code has it.  On a call of Show that finds [first_time_]
    set and the fd not registered, and that returns, the overlay texture is
    allocated once, with no pixels, at a quarter of [width_] and [height_]:
    the size of the preview window, not of the frame. *)
Theorem overlay_allocated_from_window env fd size info s s' t :
  first_time_ s = true →
  is_registered s fd = false →
  Show env fd size info s = (Returned tt, s', t) →
  overlay_images t = [(CInt.sdiv (width_ s) 4, CInt.sdiv (height_ s) 4, None)].
Proof.
  intros Hfirst Hreg Hrun.
  destruct (Show_cases env fd size info s) as (_ & _ & Hcase).
  rewrite Hrun in Hcase. unfold result_of, state_of, trace_of in Hcase.
  cbn [fst snd] in Hcase. rewrite Hfirst in Hcase.
  destruct Hcase as
    [(Hreg' & _)
    |[(_ & _ & _ & _ & _ & Ho & _)
    |[(_ & _ & (e & Hres & _) & _)
    |(_ & Hres & _)]]]; [congruence|done|done|done].
Qed.

(** ** Binary32 arithmetic on sizes *)

(** The number of binary digits of a mantissa. *)
Lemma digits2_pos_size p : digits2_pos p = Pos.size p.
Proof. induction p; simpl; congruence. Qed.

Lemma digits_bounds p :
  2 ^ (Z.pos (digits2_pos p) - 1) ≤ Z.pos p < 2 ^ Z.pos (digits2_pos p).
Proof.
  rewrite digits2_pos_size. split.
  - pose proof (Pos.size_le p) as H.
    apply Pos2Z.pos_le_pos in H. rewrite Pos2Z.inj_pow in H.
    replace (Z.pos (Pos.size p)) with (Z.succ (Z.pos (Pos.size p) - 1)) in H by lia.
    rewrite Z.pow_succ_r in H by lia. lia.
  - pose proof (Pos.size_gt p) as H.
    apply Pos2Z.pos_lt_pos in H. by rewrite Pos2Z.inj_pow in H.
Qed.

Lemma digits_unique p d :
  2 ^ (d - 1) ≤ Z.pos p < 2 ^ d → Z.pos (digits2_pos p) = d.
Proof.
  intros [Hlo Hhi]. pose proof (digits_bounds p) as [Hlo' Hhi'].
  assert (0 < d) as Hd.
  { destruct (Z.lt_ge_cases 0 d) as [|Hle]; [done|].
    destruct (Z.eq_dec d 0) as [->|]; [simpl in Hhi; lia|].
    rewrite Z.pow_neg_r in Hhi by lia. lia. }
  destruct (Z.lt_trichotomy (Z.pos (digits2_pos p)) d) as [Hlt|[->|Hgt]]; [|done|].
  - assert (2 ^ Z.pos (digits2_pos p) ≤ 2 ^ (d - 1)) by (apply Z.pow_le_mono_r; lia). lia.
  - assert (2 ^ d ≤ 2 ^ (Z.pos (digits2_pos p) - 1)) by (apply Z.pow_le_mono_r; lia). lia.
Qed.

(** Shifting a mantissa right by [n] places divides it by [2 ^ n]. *)
Lemma shr_1_m mrs : 0 ≤ shr_m mrs → shr_m (shr_1 mrs) = shr_m mrs / 2.
Proof.
  destruct mrs as [m r s]. cbn [shr_m]. intros Hm.
  destruct m as [|[p|p|]|p]; cbn [shr_1 shr_m]; [done| | |done|lia].
  - apply (Z.div_unique _ _ _ 1); lia.
  - apply (Z.div_unique _ _ _ 0); lia.
Qed.

Lemma iter_shr_1_m n :
  ∀ mrs, 0 ≤ shr_m mrs →
    shr_m (SpecFloat.iter_pos shr_1 n mrs) = shr_m mrs / 2 ^ Z.pos n.
Proof.
  assert (Hstep : ∀ x, 0 ≤ x → 0 ≤ x / 2) by (intros; apply Z.div_pos; lia).
  assert (Hpow : ∀ k x, 0 ≤ x → 0 ≤ x / 2 ^ Z.pos k)
    by (intros; apply Z.div_pos; [lia|apply Z.pow_pos_nonneg; lia]).
  assert (Hp : ∀ k, 0 < 2 ^ Z.pos k) by (intros; apply Z.pow_pos_nonneg; lia).
  induction n as [n IH|n IH|]; intros mrs Hm; cbn [SpecFloat.iter_pos].
  - rewrite IH, IH, shr_1_m; try done.
    + rewrite !Z.div_div by (try apply Hp; lia).
      f_equal. replace (Z.pos n~1) with (1 + Z.pos n + Z.pos n) by lia.
      rewrite !Z.pow_add_r by lia. lia.
    + rewrite shr_1_m by done. by apply Hstep.
    + rewrite IH, shr_1_m; [|done|rewrite shr_1_m by done; by apply Hstep].
      apply Hpow. by apply Hstep.
  - rewrite IH, IH; try done.
    + rewrite !Z.div_div by (try apply Hp; lia).
      f_equal. replace (Z.pos n~0) with (Z.pos n + Z.pos n) by lia.
      by rewrite !Z.pow_add_r by lia.
    + rewrite IH by done. by apply Hpow.
  - rewrite shr_1_m by done. done.
Qed.

Lemma Zdigits2_bounds x : 0 < x → 2 ^ (Zdigits2 x - 1) ≤ x < 2 ^ Zdigits2 x.
Proof. destruct x as [|p|p]; [lia| |lia]. intros _. apply digits_bounds. Qed.

Lemma Zdigits2_le x k : 0 < x → x < 2 ^ k → Zdigits2 x ≤ k.
Proof.
  intros Hx Hk. pose proof (Zdigits2_bounds x Hx) as [Hlo _].
  destruct (Z.le_gt_cases (Zdigits2 x) k) as [|Hgt]; [done|].
  assert (2 ^ k ≤ 2 ^ (Zdigits2 x - 1)) by (apply Z.pow_le_mono_r; lia). lia.
Qed.

Lemma Zdigits2_ge x k : 0 ≤ k → 2 ^ k ≤ x → k + 1 ≤ Zdigits2 x.
Proof.
  intros Hk0 Hk. assert (0 < x) as Hx by (pose proof (Z.pow_pos_nonneg 2 k); lia).
  pose proof (Zdigits2_bounds x Hx) as [_ Hhi].
  destruct (Z.lt_ge_cases k (Zdigits2 x)); [lia|].
  assert (2 ^ Zdigits2 x ≤ 2 ^ k) by (apply Z.pow_le_mono_r; lia). lia.
Qed.

Lemma Zdigits2_succ x : 0 < x → Zdigits2 x ≤ Zdigits2 (x + 1) ≤ Zdigits2 x + 1.
Proof.
  intros Hx. pose proof (Zdigits2_bounds x Hx) as [Hlo Hhi].
  assert (0 < Zdigits2 x) by (destruct x; simpl; lia).
  split.
  - pose proof (Zdigits2_ge (x + 1) (Zdigits2 x - 1)). lia.
  - apply Zdigits2_le; [lia|]. rewrite Z.pow_add_r by lia. lia.
Qed.

Lemma Zdigits2_div_pow x n : 0 < x → 0 ≤ n < Zdigits2 x →
  0 < x / 2 ^ n ∧ Zdigits2 (x / 2 ^ n) = Zdigits2 x - n.
Proof.
  intros Hx Hn. pose proof (Zdigits2_bounds x Hx) as [Hlo Hhi].
  set (d := Zdigits2 x) in *.
  assert (0 < 2 ^ n) by (apply Z.pow_pos_nonneg; lia).
  assert (0 < 2 ^ (d - 1 - n)) by (apply Z.pow_pos_nonneg; lia).
  assert (2 ^ (d - 1) = 2 ^ n * 2 ^ (d - 1 - n)) as E1
    by (rewrite <-Z.pow_add_r by lia; f_equal; lia).
  assert (2 ^ d = 2 ^ n * 2 ^ (d - n)) as E2
    by (rewrite <-Z.pow_add_r by lia; f_equal; lia).
  assert (2 ^ (d - 1 - n) ≤ x / 2 ^ n) by (apply Z.div_le_lower_bound; lia).
  assert (x / 2 ^ n < 2 ^ (d - n)) by (apply Z.div_lt_upper_bound; lia).
  split; [lia|].
  pose proof (Zdigits2_le (x / 2 ^ n) (d - n)).
  pose proof (Zdigits2_ge (x / 2 ^ n) (d - 1 - n)). lia.
Qed.

Lemma shr_record_of_loc_m m l : shr_m (shr_record_of_loc m l) = m.
Proof. by destruct l as [|[]]. Qed.

(** Aligning a positive mantissa to the binary32 format keeps it positive
    and keeps the position of its leading digit. *)
Lemma shr_fexp_spec m e l :
  0 < m → -148 ≤ Zdigits2 m + e →
  let r := shr_fexp 24 128 m e l in
  0 < shr_m r.1
  ∧ Zdigits2 (shr_m r.1) + r.2 = Zdigits2 m + e
  ∧ r.2 = Z.max e (fexp 24 128 (Zdigits2 m + e)).
Proof.
  intros Hm He. cbv zeta. unfold shr_fexp, shr.
  assert (fexp 24 128 (Zdigits2 m + e) = Z.max (Zdigits2 m + e - 24) (-149)) as ->
    by reflexivity.
  destruct (Z.max (Zdigits2 m + e - 24) (-149) - e) as [|n|n] eqn:En; cbn [fst snd].
  - rewrite shr_record_of_loc_m. lia.
  - rewrite iter_shr_1_m, shr_record_of_loc_m by (rewrite shr_record_of_loc_m; lia).
    destruct (Zdigits2_div_pow m (Z.pos n)) as [Hpos Hd]; [done|lia|].
    rewrite Hd. lia.
  - rewrite shr_record_of_loc_m. lia.
Qed.

Lemma round_nearest_even_cases m l :
  round_nearest_even m l = m ∨ round_nearest_even m l = m + 1.
Proof. destruct l as [|[]]; simpl; try destruct (Z.even m); auto. Qed.

(** Rounding a positive mantissa whose leading digit is within the range of
    binary32 gives a finite non-zero float; the leading digit moves up by at
    most one place. *)
Lemma binary_round_aux_finite sx mx ex lx :
  0 < mx → -148 ≤ Zdigits2 mx + ex ≤ 127 → ex ≤ 104 →
  ∃ m e, binary_round_aux 24 128 sx mx ex lx = S754_finite sx m e
         ∧ Zdigits2 mx + ex ≤ Z.pos (digits2_pos m) + e ≤ Zdigits2 mx + ex + 1.
Proof.
  intros Hm Hd He. unfold binary_round_aux.
  pose proof (shr_fexp_spec mx ex lx Hm ltac:(lia)) as H1. cbv zeta in H1.
  destruct (shr_fexp 24 128 mx ex lx) as [mrs' e']. cbn [fst snd] in H1.
  destruct H1 as (Hpos1 & Hd1 & He1).
  set (m1 := round_nearest_even (shr_m mrs') (loc_of_shr_record mrs')).
  assert (0 < m1 ∧ Zdigits2 (shr_m mrs') ≤ Zdigits2 m1 ≤ Zdigits2 (shr_m mrs') + 1)
    as [Hpos Hdm].
  { pose proof (Zdigits2_succ _ Hpos1).
    destruct (round_nearest_even_cases (shr_m mrs') (loc_of_shr_record mrs')) as [E|E];
      fold m1 in E; rewrite E; lia. }
  assert (fexp 24 128 (Zdigits2 mx + ex) = Z.max (Zdigits2 mx + ex - 24) (-149)) as E1
    by reflexivity.
  pose proof (shr_fexp_spec m1 e' loc_Exact Hpos ltac:(lia)) as H2. cbv zeta in H2.
  destruct (shr_fexp 24 128 m1 e' loc_Exact) as [mrs'' e'']. cbn [fst snd] in H2.
  destruct H2 as (Hpos2 & Hd2 & He2).
  assert (fexp 24 128 (Zdigits2 m1 + e') = Z.max (Zdigits2 m1 + e' - 24) (-149)) as E2
    by reflexivity.
  destruct (shr_m mrs'') as [|m|m] eqn:Em; [lia| |lia].
  replace (e'' <=? 128 - 24) with true by (symmetry; apply Z.leb_le; lia).
  exists m, e''. split; [done|]. simpl in Hd2. lia.
Qed.

Lemma digits2_pos_iter_xO m d :
  Z.pos (digits2_pos (Pos.iter xO m d)) = Z.pos (digits2_pos m) + Z.pos d.
Proof.
  induction d as [|d IH] using Pos.peano_ind.
  - simpl. lia.
  - rewrite Pos.iter_succ. cbn [digits2_pos]. lia.
Qed.

Lemma shl_align_spec mx ex ex' :
  let r := shl_align mx ex ex' in
  Z.pos (digits2_pos r.1) + r.2 = Z.pos (digits2_pos mx) + ex ∧ r.2 = Z.min ex ex'.
Proof.
  cbv zeta. unfold shl_align.
  destruct (ex' - ex) as [|d|d] eqn:E; cbn [fst snd]; [lia|lia|].
  rewrite digits2_pos_iter_xO. lia.
Qed.

(** [(float) z] of a positive [int] is a finite positive float below
    [2 ^ 32]. *)
Lemma of_int_finite z : 1 ≤ z < 2 ^ 31 →
  ∃ m e, F32.of_int z = S754_finite false m e
         ∧ 1 ≤ Z.pos (digits2_pos m) + e ≤ 32.
Proof.
  intros Hz. destruct z as [|p|p]; [lia| |lia].
  unfold F32.of_int, F32.prec, F32.emax, binary_normalize, binary_round.
  pose proof (shl_align_spec p 0 (fexp 24 128 (Z.pos (digits2_pos p) + 0))) as Hs.
  cbv zeta in Hs.
  destruct (shl_align p 0 _) as [mz ez]. cbn [fst snd] in Hs. destruct Hs as [Hd He].
  pose proof (Zdigits2_le (Z.pos p) 31 ltac:(lia) ltac:(lia)) as Hle. cbn [Zdigits2] in Hle.
  destruct (binary_round_aux_finite false (Z.pos mz) ez loc_Exact) as (m & e & -> & Hb);
    cbn [Zdigits2]; [lia|lia|lia|].
  exists m, e. split; [done|]. cbn [Zdigits2] in Hb. lia.
Qed.

Lemma Z_div_eucl_eq a b : Z.div_eucl a b = (a / b, a mod b).
Proof. unfold Z.div, Z.modulo. by destruct (Z.div_eucl a b). Qed.

(** The quotient of two such floats neither overflows nor underflows. *)
Lemma div_finite sx m1 e1 sy m2 e2 :
  1 ≤ Z.pos (digits2_pos m1) + e1 ≤ 32 → 1 ≤ Z.pos (digits2_pos m2) + e2 ≤ 32 →
  ∃ m e, F32.div (S754_finite sx m1 e1) (S754_finite sy m2 e2)
         = S754_finite (xorb sx sy) m e.
Proof.
  intros H1 H2. unfold F32.div, F32.prec, F32.emax, SFdiv, SFdiv_core_binary. cbv zeta. cbn [Zdigits2].
  set (d1 := Z.pos (digits2_pos m1)) in *. set (d2 := Z.pos (digits2_pos m2)) in *.
  assert (fexp 24 128 (d1 + e1 - (d2 + e2)) = Z.max (d1 + e1 - (d2 + e2) - 24) (-149)) as ->
    by reflexivity.
  set (e' := Z.min _ (e1 - e2)).
  assert (e' = d1 + e1 - (d2 + e2) - 24 ∨ e' = e1 - e2) as He' by (subst e'; lia).
  assert (e' ≤ d1 + e1 - (d2 + e2) - 24 ∧ e' ≤ e1 - e2) as [He1 He2] by (subst e'; lia).
  clearbody e'.
  set (s := e1 - e2 - e').
  assert (24 - d1 + d2 ≤ s) as Hs by (subst s; lia).
  assert (0 < d1 ∧ 0 < d2) as [Hd1 Hd2] by (subst d1 d2; lia).
  set (m' := match s with Z0 => Z.pos m1 | Z.pos _ => Z.shiftl (Z.pos m1) s | Z.neg _ => 0 end).
  assert (m' = Z.pos m1 * 2 ^ s) as Hm'.
  { subst m'. destruct s eqn:Es; [simpl; lia| |lia].
    rewrite Z.shiftl_mul_pow2 by lia. done. }
  clearbody m'. rewrite Z_div_eucl_eq.
  pose proof (digits_bounds m1) as [Hlo1 Hhi1]. fold d1 in Hlo1, Hhi1.
  pose proof (digits_bounds m2) as [Hlo2 Hhi2]. fold d2 in Hlo2, Hhi2.
  set (k := d1 - 1 + s - d2).
  assert (23 ≤ k) as Hk by (subst k; lia).
  assert (0 < 2 ^ s) by (apply Z.pow_pos_nonneg; lia).
  assert (0 < 2 ^ k) by (apply Z.pow_pos_nonneg; lia).
  assert (0 < 2 ^ (d2 - 1)) by (apply Z.pow_pos_nonneg; lia).
  assert (2 ^ d2 * 2 ^ k = 2 ^ (d1 - 1) * 2 ^ s) as Ea
    by (rewrite <-!Z.pow_add_r by lia; f_equal; lia).
  assert (2 ^ (d2 - 1) * 2 ^ (k + 2) = 2 ^ d1 * 2 ^ s) as Eb
    by (rewrite <-!Z.pow_add_r by lia; f_equal; lia).
  assert (2 ^ k ≤ m' / Z.pos m2) as Hq1.
  { apply Z.div_le_lower_bound; [lia|]. nia. }
  assert (m' / Z.pos m2 < 2 ^ (k + 2)) as Hq2.
  { apply Z.div_lt_upper_bound; [lia|]. nia. }
  pose proof (Zdigits2_ge _ k ltac:(lia) Hq1).
  pose proof (Zdigits2_le (m' / Z.pos m2) (k + 2) ltac:(lia) Hq2).
  destruct (binary_round_aux_finite (xorb sx sy) (m' / Z.pos m2) e'
              (new_location (Z.pos m2) (m' mod Z.pos m2))) as (m & e & -> & _);
    [lia|subst k s; lia|lia|].
  by exists m, e.
Qed.

(** The ratio of a frame size to a window size, both positive [int]s, is a
    finite float. *)
Lemma ratio_finite z w : 1 ≤ z < 2 ^ 31 → 1 ≤ w < 2 ^ 31 →
  ∃ m e, F32.div (F32.of_int z) (F32.of_int w) = S754_finite false m e.
Proof.
  intros Hz Hw.
  destruct (of_int_finite z Hz) as (m1 & e1 & -> & H1).
  destruct (of_int_finite w Hw) as (m2 & e2 & -> & H2).
  apply (div_finite false m1 e1 false m2 e2 H1 H2).
Qed.

(** ** The video quad *)

(** The quad that gl_setup hands to the vertex array is the static local
    array: the scale factors of this call only when no earlier call in the
    process has initialised it. *)
Lemma gl_setup_quad env width height window_width window_height s s' t :
  gl_setup env width height window_width window_height s = (Returned tt, s', t) →
  let factors := scale_factors width height window_width window_height in
  verts_ s' = Some (default (quad factors.1 factors.2) (gl_setup_verts s))
  ∧ gl_setup_verts s' = verts_ s'.
Proof.
  unfold gl_setup.
  pose proof (compile_shader_spec env GL_VERTEX_SHADER
    (env_snprintf env video_vs_format
       (F64.mul F64.two (F64.of_float (scale_factors width height window_width window_height).1))
       (F64.mul F64.two (F64.of_float (scale_factors width height window_width window_height).2)))
    s) as H1.
  unfold sat, result_of, state_of, trace_of in H1. cbv zeta. unfold bind at 1.
  destruct (compile_shader _ _ _ s) as [[[vs_s|e] s1] t1]; [|done].
  cbn [fst snd] in H1. destruct H1 as (-> & _ & _).
  pose proof (compile_shader_spec env GL_FRAGMENT_SHADER video_fs s) as H2.
  unfold sat, result_of, state_of, trace_of in H2. unfold bind at 1.
  destruct (compile_shader _ _ _ s) as [[[fs_s|e] s1] t2]; [|done].
  cbn [fst snd] in H2. destruct H2 as (-> & _ & _).
  pose proof (link_program_spec env vs_s fs_s s) as H3.
  unfold sat, result_of, state_of, trace_of in H3. unfold bind at 1.
  destruct (link_program _ _ _ s) as [[[p|e] s1] t3]; [|done].
  cbn [fst snd] in H3. destruct H3 as (-> & _ & _).
  unfold bind, modify, call, gets, ret.
  cbn -[scale_factors quad].
  destruct (gl_setup_verts s) as [stale|] eqn:E; cbn -[scale_factors quad];
    intros [= <- _]; cbn -[scale_factors quad]; by rewrite ?E.
Qed.

Lemma F32_div_self s m e :
  F32.div (S754_finite s m e) (S754_finite s m e) = F32.one.
Proof.
  unfold F32.div, SFdiv, SFdiv_core_binary, Zdigits2.
  replace (Z.pos (digits2_pos m) + e - (Z.pos (digits2_pos m) + e)) with 0 by lia.
  replace (e - e) with 0 by lia.
  change (Z.min (fexp F32.prec F32.emax 0) 0) with (-24).
  change (0 - -24) with 24.
  rewrite Z.shiftl_mul_pow2 by done.
  destruct (Z.div_eucl (Z.pos m * 2 ^ 24) (Z.pos m)) as [q r] eqn:E.
  assert (q = 2 ^ 24 ∧ r = 0) as [-> ->].
  { split.
    - change q with (q, r).1. rewrite <-E.
      change (Z.div_eucl ?a ?b).1 with (a / b).
      rewrite Z.mul_comm. by apply Z.div_mul.
    - change r with (q, r).2. rewrite <-E. change (Z.div_eucl ?a ?b).2 with (a mod b).
      rewrite Z.mul_comm. by apply Z.mod_mul. }
  unfold new_location. by destruct s, (Z.even (Z.pos m)).
Qed.

(** On the set-up that initialises the quad, the axis with the larger
    frame-to-window ratio gets the factor 1 when that ratio is a finite
    non-zero float: the quad spans the window on that axis. *)
Lemma larger_factor_is_one width height window_width window_height :
  let w_ratio := F32.div (F32.of_int width) (F32.of_int window_width) in
  let h_ratio := F32.div (F32.of_int height) (F32.of_int window_height) in
  let factors := scale_factors width height window_width window_height in
  (∀ s m e, F32.ltb w_ratio h_ratio = false → w_ratio = S754_finite s m e →
     factors.1 = F32.one)
  ∧ (∀ s m e, F32.ltb w_ratio h_ratio = true → h_ratio = S754_finite s m e →
     factors.2 = F32.one).
Proof.
  cbv zeta. unfold scale_factors, F32.max. split; intros s m e -> Heq; simpl.
  - rewrite Heq. apply F32_div_self.
  - rewrite Heq. apply F32_div_self.
Qed.

(** For positive [int] sizes that holds always: the set-up that initialises
    the quad gives the factor 1 to the axis with the larger ratio. *)
Lemma larger_factor_of_sizes width height window_width window_height :
  1 ≤ width < 2 ^ 31 → 1 ≤ height < 2 ^ 31 →
  1 ≤ window_width < 2 ^ 31 → 1 ≤ window_height < 2 ^ 31 →
  let w_ratio := F32.div (F32.of_int width) (F32.of_int window_width) in
  let h_ratio := F32.div (F32.of_int height) (F32.of_int window_height) in
  let factors := scale_factors width height window_width window_height in
  (if F32.ltb w_ratio h_ratio then factors.2 else factors.1) = F32.one.
Proof.
  intros Hw Hh Hww Hwh.
  destruct (ratio_finite width window_width Hw Hww) as (m1 & e1 & E1).
  destruct (ratio_finite height window_height Hh Hwh) as (m2 & e2 & E2).
  pose proof (larger_factor_is_one width height window_width window_height) as [Ha Hb].
  cbv zeta. destruct (F32.ltb _ _) eqn:E; eauto.
Qed.

(** C5, at the inputs where the code departs from it.  A 1024x768 frame
    is shown in a 1024x768 window, the preview is reset and a 512x768 frame
    is shown.  The scale factors of the second set-up are (1/2, 1), but the
    quad Show draws with is still the first one, of factors (1, 1). *)
Theorem quad_stale_after_reset :
  let s1 := state_of (Show sample_env 101 1179648 (sample_info 1024 768) (constructed 1024 768)) in
  let s2 := state_of (Reset s1) in
  let r := Show sample_env 102 589824 (sample_info 512 768) s2 in
  result_of r = Returned tt
  ∧ scale_factors 512 768 1024 768 = (F32.half, F32.one)
  ∧ verts_ (state_of r) = Some (quad F32.one F32.one)
  ∧ quad F32.one F32.one ≠ quad F32.half F32.one.
Proof.
  cbv zeta. split_and!.
  - by vm_compute.
  - by vm_compute.
  - by vm_compute.
  - vm_compute. by intros [=].
Qed.

(** ** The members that only the set-up writes *)

Lemma sat_and {A} (m : M A) s (P Q : outcome A → State → list Call → Prop) :
  sat m s P → sat m s Q → sat m s (λ r s' t, P r s' t ∧ Q r s' t).
Proof. unfold sat. auto. Qed.

(** The members that gl_setup and setup_overlay write. *)
Lemma setup_overlay_texture env s :
  sat (setup_overlay env) s (λ r s' t,
    r = Returned tt → overlay_texture_ s' = Some (env_overlay_texture env)).
Proof.
  unfold setup_overlay. wp.
  use compile_shader_spec. intros [vs_s|e] s1 t1 _; [|done].
  wp. use compile_shader_spec. intros [fs_s|e] s2 t2 _; [|done].
  wp. use link_program_spec. intros [p|e] s3 t3 _; [|done].
  by wp.
Qed.

Lemma first_time_setup_members env info s :
  sat (first_time_setup env info) s (λ r s' t,
    (first_time_ s = false → r = Returned tt ∧ s' = s ∧ t = [])
    ∧ (first_time_ s = true → r = Returned tt →
       overlay_texture_ s' = Some (env_overlay_texture env))).
Proof.
  unfold first_time_setup. wp; try (split; [congruence|]); try done.
  use gl_setup_spec. intros [[]|e] s1 t1 _; [|done].
  wp. use setup_overlay_texture. intros [[]|e] s2 t2 Ht; [|done].
  wp. split; [congruence|]. intros _ _. by apply Ht.
Qed.

(** What makeBuffer does to the members besides the registry. *)
Lemma makeBuffer_members env fd size info s :
  sat (makeBuffer env fd size info) s (λ r s' t,
    (first_time_ s = false →
       prog_ s' = prog_ s ∧ verts_ s' = verts_ s ∧ overlay_prog_ s' = overlay_prog_ s ∧
       overlay_texture_ s' = overlay_texture_ s ∧ gl_setup_verts s' = gl_setup_verts s ∧
       first_time_ s' = false)
    ∧ (first_time_ s = true → r = Returned tt →
       overlay_texture_ s' = Some (env_overlay_texture env))
    ∧ (∀ e, r = Thrown e → setup_failure e → first_time_ s' = true)).
Proof.
  unfold makeBuffer. wp.
  eapply sat_mono;
    [apply sat_and; [apply first_time_setup_spec|apply first_time_setup_members]|].
  cbv beta.
  intros [[]|e] s1 t1 [(_ & _ & _ & _ & _ & Hr) [Hlater Hfirst]].
  2:{ destruct Hr as (_ & Ht & Ht' & _). split_and!; [congruence|done|done]. }
  wp. use get_colour_space_info_spec. intros r s2 t2 (-> & -> & _).
  destruct (spec_colour_table (tag_of (StreamInfo.colour_space info))) as [enc rng].
  wp; simpl.
  - split_and!; [|by auto|done].
    intros Hf. destruct (Hlater Hf) as (_ & -> & _). by rewrite Hf.
  - split_and!; [|done|].
    + intros Hf. destruct (Hlater Hf) as (_ & -> & _). by rewrite Hf.
    + intros e [= <-] Hs. by apply (setup_failure_not_import _ fd) in Hs.
Qed.

(** The same for the registry look-up of Show, and what a look-up that
    throws leaves in the entry. *)
Lemma resolve_members env fd size info s :
  sat (resolve env fd size info) s (λ r s' t,
    (first_time_ s = false →
       prog_ s' = prog_ s ∧ verts_ s' = verts_ s ∧ overlay_prog_ s' = overlay_prog_ s ∧
       overlay_texture_ s' = overlay_texture_ s ∧ gl_setup_verts s' = gl_setup_verts s ∧
       first_time_ s' = false)
    ∧ (first_time_ s = true → is_registered s fd = false → ∀ texture, r = Returned texture →
       overlay_texture_ s' = Some (env_overlay_texture env))
    ∧ (∀ e, r = Thrown e → setup_failure e → first_time_ s' = true)
    ∧ (∀ e, r = Thrown e →
       ∃ b, buffers_ s' !! fd = Some b ∧
            Buffer.texture b = buffers_ s !! fd ≫= Buffer.texture)).
Proof.
  unfold resolve, buffers_at. wp.
  - (* an entry that no import has claimed *)
    rename t into b0.
    eapply sat_mono; [apply sat_and; [apply makeBuffer_spec|apply makeBuffer_members]|].
    cbv beta. intros [[]|e] s1 t1 [(_&_&_&_&_&_&_&Hr) (Hlater & Hfirst & Hsetup)].
    + wp. split_and!; [exact Hlater| |done|done]. intros Hf _ texture _. by apply Hfirst.
    + split_and!; [exact Hlater|done|intros ? [= <-]; by apply Hsetup|]. intros ? [= <-]. simpl.
      destruct Hr as [(_&_&_&_&->)|(_&_&_&_&->)]; rewrite Heqo; simpl; eauto.
  - (* a registered entry *)
    wp. split_and!; try done. intros _ Hreg. unfold is_registered in Hreg.
    rewrite Heqo, Heqb in Hreg. done.
  - (* no entry: operator[] inserts a default one *)
    eapply sat_mono; [apply sat_and; [apply makeBuffer_spec|apply makeBuffer_members]|].
    cbv beta. intros [[]|e] s1 t1 [(_&_&_&_&_&_&_&Hr) (Hlater & Hfirst & Hsetup)];
      simpl in *.
    + wp. split_and!; [exact Hlater| |done|done]. intros Hf _ texture _. by apply Hfirst.
    + split_and!; [exact Hlater|done|intros ? [= <-]; by apply Hsetup|]. intros ? [= <-].
      destruct Hr as [(_&_&_&_&->)|(_&_&_&_&->)]; rewrite lookup_insert_eq; simpl; eauto.
  - done.
Qed.

Lemma fresh_not_registered s fd : buffers_ s !! fd = None → is_registered s fd = false.
Proof. unfold is_registered. by intros ->. Qed.

Lemma in_key_order_lookup (m : gmap Z Buffer.t) fd b :
  m !! fd = Some b → (fd, b) ∈ in_key_order m.
Proof.
  intros Hb. unfold in_key_order. rewrite merge_sort_Permutation.
  by apply elem_of_map_to_list.
Qed.

(** ** SetOverlay and the frames that follow *)













(** ** Calls of Show that throw *)

(** X1. A Show of a new fd whose import fails leaves an entry for the fd
    behind.  Every later Show of that fd finds the entry, skips the import,
    whatever the driver would answer now, and draws with the texture name of
    the entry, which was never generated. *)
Theorem failed_import_is_not_retried env fd size info s env' size' info' :
  fd ≠ -1 → buffers_ s !! fd = None →
  result_of (Show env fd size info s) = Thrown (import_failure fd) →
  let s1 := state_of (Show env fd size info s) in
  let r' := Show env' fd size' info' s1 in
  is_registered s1 fd = true
  ∧ result_of r' = Returned tt
  ∧ imports (trace_of r') = []
  ∧ trace_of r' = draw_calls env' s1 None ++ eglSwapBuffers :: release_calls (last_fd_ s)
  ∧ glBindTexture GL_TEXTURE_EXTERNAL_OES None ∈ trace_of r'.
Proof.
  intros Hfd Hfresh. pose proof (fresh_not_registered _ _ Hfresh) as Hreg.
  rewrite Show_run.
  pose proof (resolve_miss env fd size info s Hreg) as Hm.
  pose proof (resolve_members env fd size info s) as Hmem.
  unfold sat, result_of, state_of, trace_of in *.
  destruct (resolve env fd size info s) as [[[texture|e] s1] t1]; cbn [fst snd] in *;
    [done|].
  intros [= ->]. cbv zeta.
  destruct Hm as (Hlast & _ & _ & _ & _ & _ & _ & Hr).
  destruct Hr as [(Hs & _)|(_ & _ & _ & _ & b & Hb & Hbfd)];
    [by apply (setup_failure_not_import _ fd) in Hs|].
  destruct Hmem as (_ & _ & _ & Htex). destruct (Htex _ eq_refl) as (b' & Hb' & Ht).
  rewrite Hb in Hb'. injection Hb' as <-. rewrite Hfresh in Ht. simpl in Ht.
  assert (Hne : Buffer.fd b ≠ -1) by congruence.
  rewrite Show_run, (resolve_hit _ _ _ _ _ _ Hb Hne), Ht, Hlast. cbn [fst snd app].
  split_and!; try done.
  - apply is_registered_true. eauto.
  - by destruct (tail_observed env' s1 None (last_fd_ s)) as (-> & _).
  - unfold draw_calls. rewrite !elem_of_app, !elem_of_cons. left. left. tauto.
Qed.

(** X2. A Show whose one-time set-up fails leaves [first_time_] set and the
    fd unclaimed: the next Show of the fd starts the set-up again. *)
Theorem failed_setup_is_retried env fd size info s e env' size' info' :
  is_registered s fd = false →
  result_of (Show env fd size info s) = Thrown e → setup_failure e →
  let s1 := state_of (Show env fd size info s) in
  first_time_ s1 = true
  ∧ is_registered s1 fd = false
  ∧ ∃ t', trace_of (Show env' fd size' info' s1) = eglMakeCurrent true :: t'.
Proof.
  intros Hreg. rewrite Show_run.
  pose proof (resolve_miss env fd size info s Hreg) as Hm.
  pose proof (resolve_members env fd size info s) as Hmem.
  unfold sat, result_of, state_of, trace_of in *.
  destruct (resolve env fd size info s) as [[[texture|e'] s1] t1]; cbn [fst snd] in *;
    [done|].
  intros [= ->] Hs. cbv zeta.
  destruct Hmem as (_ & _ & Hfirst & _). specialize (Hfirst _ eq_refl Hs).
  destruct Hm as (_ & _ & _ & _ & _ & _ & _ & Hr).
  destruct Hr as [(_ & _ & _ & _ & b & Hb & Hbfd)|(-> & _)];
    [|by apply (setup_failure_not_import _ fd) in Hs].
  assert (Hreg1 : is_registered s1 fd = false).
  { unfold is_registered. rewrite Hb, Hbfd. done. }
  split_and!; try done. by apply Show_head.
Qed.

(** X3. After a Show of a new fd has thrown, the registry holds an entry for
    the fd whose texture was never generated, and Reset passes that
    indeterminate name to glDeleteTextures. *)
Theorem Reset_after_failed_Show env fd size info s e :
  buffers_ s !! fd = None →
  result_of (Show env fd size info s) = Thrown e →
  let s1 := state_of (Show env fd size info s) in
  is_Some (buffers_ s1 !! fd)
  ∧ None ∈ deleted (trace_of (Reset s1)).
Proof.
  intros Hfresh. rewrite Show_run.
  pose proof (resolve_members env fd size info s) as Hmem.
  unfold sat, result_of, state_of, trace_of in *.
  destruct (resolve env fd size info s) as [[[texture|e'] s1] t1]; cbn [fst snd] in *;
    [done|].
  intros [= ->]. cbv zeta.
  destruct Hmem as (_ & _ & _ & Htex). destruct (Htex _ eq_refl) as (b & Hb & Ht).
  rewrite Hfresh in Ht. simpl in Ht. split; [by eexists|].
  rewrite Reset_run. cbn [snd]. rewrite deleted_app.
  destruct (deleted_textures (in_key_order (buffers_ s1))) as [-> _].
  apply elem_of_app. left. apply list_elem_of_fmap.
  exists (fd, b). split; [done|]. by apply in_key_order_lookup.
Qed.

(** ** The set-up runs once *)

(** X4. Once the set-up has run, Show does not run it again before the next
    Reset, whatever the geometry of the frame: the programs, the quad and the
    overlay texture stay as they are, and the frame is drawn with the program
    and the quad of the first frame. *)
Theorem set_up_runs_once env fd size info s :
  first_time_ s = false →
  let r := Show env fd size info s in
  let s' := state_of r in
  (prog_ s' = prog_ s ∧ verts_ s' = verts_ s ∧ overlay_prog_ s' = overlay_prog_ s ∧
   overlay_texture_ s' = overlay_texture_ s ∧ gl_setup_verts s' = gl_setup_verts s ∧
   first_time_ s' = false)
  ∧ match result_of r with
    | Returned _ =>
        overlay_images (trace_of r) = [] ∧
        glUseProgram (prog_ s) ∈ trace_of r ∧
        glVertexAttribPointer 0 (verts_ s) ∈ trace_of r
    | Thrown e => e = import_failure fd
    end.
Proof.
  intros Hfirst. cbv zeta.
  destruct (Show_cases env fd size info s) as (_ & _ & Hcase).
  revert Hcase. rewrite Show_run.
  pose proof (resolve_members env fd size info s) as Hmem.
  unfold sat, result_of, state_of, trace_of in *.
  destruct (resolve env fd size info s) as [[[texture|e] s1] t1]; cbn [fst snd] in *;
    destruct Hmem as (Hlater & _); destruct (Hlater Hfirst) as (Hp & Hv & ? & ? & ? & ?);
    intros Hcase.
  - split; [done|].
    assert (Ho : overlay_images
              (t1 ++ draw_calls env s1 texture ++ eglSwapBuffers :: release_calls (last_fd_ s1))
              = []).
    { destruct Hcase as [(_&_&_&_&Ho&_)|[(_&_&_&_&_&Ho&_)|[(_&_&(?&?&_)&_)|(_&?&_)]]];
        try done. by rewrite Hfirst in Ho. }
    split; [done|]. unfold draw_calls. rewrite Hp, Hv.
    split; rewrite !elem_of_app, !elem_of_cons; right; left; left; tauto.
  - split; [done|].
    destruct Hcase as [(_&?&_)|[(_&?&_)|[(_&Hf&_)|(_&He&_)]]]; try done; congruence.
Qed.

(** ** The overlay across a Reset *)

(** X5. Reset leaves [overlay_present_] set but the next Show runs the
    set-up again: it generates a new overlay texture, allocates it at a
    quarter of the window with no pixels, and draws the overlay with that
    texture.  The pixels that SetOverlay uploaded before the Reset are not
    drawn again. *)
Theorem overlay_flag_survives_Reset env fd size info s :
  overlay_present_ s = true →
  let s0 := state_of (Reset s) in
  let r := Show env fd size info s0 in
  overlay_present_ s0 = true
  ∧ (result_of r = Returned tt →
     overlay_present_ (state_of r) = true
     ∧ overlay_texture_ (state_of r) = Some (env_overlay_texture env)
     ∧ overlay_images (trace_of r)
       = [(CInt.sdiv (width_ s) 4, CInt.sdiv (height_ s) 4, None)]
     ∧ ∃ t1 texture,
         trace_of r = t1 ++ draw_calls env (state_of r) texture ++ [eglSwapBuffers]).
Proof.
  intros Hov. cbv zeta. rewrite Reset_run.
  change (state_of (Returned tt, ?x, ?t)) with x.
  set (s0 := set_first_time true (set_last_fd (-1) (set_buffers (λ _, ∅) s))).
  split; [done|].
  assert (Hreg : is_registered s0 fd = false) by done.
  destruct (Show_cases env fd size info s0) as (_ & Hop & Hcase).
  pose proof (resolve_members env fd size info s0) as Hmem.
  pose proof (resolve_frame env fd size info s0) as Hfr.
  rewrite Show_run in Hop, Hcase. rewrite Show_run.
  unfold sat, result_of, state_of, trace_of in *.
  destruct (resolve env fd size info s0) as [[[texture|e] s1] t1]; cbn [fst snd] in *;
    [|done].
  intros _.
  destruct Hmem as (_ & Htex & _). specialize (Htex eq_refl Hreg _ eq_refl).
  destruct Hfr as (Hlast & _).
  split_and!.
  - by rewrite Hop.
  - exact Htex.
  - destruct Hcase as [(?&_)|[(_&_&_&_&_&Ho&_)|[(_&_&(?&?&_)&_)|(_&?&_)]]]; try done.
  - exists t1, texture. by rewrite Hlast.
Qed.

(** ** link_program *)

(** X6. link_program returns the program when the link status is set.
    Otherwise it throws: with the driver's log when the log length is
    above 1, and with the text "<empty log>", without asking for the log,
    when the length is 1 or less. *)
Theorem link_program_outcome env vs fs s :
  let r := link_program env vs fs s in
  let reply := env_program env vs fs in
  let prog := program_name reply in
  state_of r = s
  ∧ match result_of r with
    | Returned p =>
        program_ok reply = true ∧ p = prog ∧
        glGetProgramiv_INFO_LOG_LENGTH prog ∉ trace_of r
    | Thrown e =>
        program_ok reply = false ∧
        glGetProgramiv_INFO_LOG_LENGTH prog ∈ trace_of r ∧
        if 1 <? program_log_length reply
        then e = runtime_error ("failed to link: " +:+ program_log reply) ∧
             glGetProgramInfoLog prog ∈ trace_of r
        else e = runtime_error "failed to link: <empty log>" ∧
             glGetProgramInfoLog prog ∉ trace_of r
    end.
Proof.
  cbv zeta. unfold link_program, bind, call, ret, throw, result_of, state_of, trace_of.
  destruct (program_ok (env_program env vs fs)); simpl.
  - split_and!; try done. intros Hin.
    repeat (apply elem_of_cons in Hin as [Hin|Hin]; [discriminate|]).
    by apply elem_of_nil in Hin.
  - destruct (1 <? program_log_length (env_program env vs fs)); simpl;
      (split_and!; try done);
      try (rewrite !elem_of_cons; tauto).
    intros Hin.
    repeat (apply elem_of_cons in Hin as [Hin|Hin]; [discriminate|]).
    by apply elem_of_nil in Hin.
Qed.

(** ** The first quad *)

(** X7. On the first gl_setup of the process, for a frame and a window whose
    sizes are positive [int]s, [verts_] receives the quad of the scale factors
    of this call, and the factor of the axis with the larger frame-to-window
    ratio is exactly 1: the quad spans the window on that axis. *)
Theorem first_quad_spans_window env width height window_width window_height s :
  let r := gl_setup env width height window_width window_height s in
  let factors := scale_factors width height window_width window_height in
  let w_ratio := F32.div (F32.of_int width) (F32.of_int window_width) in
  let h_ratio := F32.div (F32.of_int height) (F32.of_int window_height) in
  1 ≤ width < 2 ^ 31 → 1 ≤ height < 2 ^ 31 →
  1 ≤ window_width < 2 ^ 31 → 1 ≤ window_height < 2 ^ 31 →
  gl_setup_verts s = None → result_of r = Returned tt →
  verts_ (state_of r) = Some (quad factors.1 factors.2)
  ∧ (if F32.ltb w_ratio h_ratio then factors.2 else factors.1) = F32.one.
Proof.
  cbv zeta. intros Hw Hh Hww Hwh Hnone Hret. split.
  - destruct (gl_setup env width height window_width window_height s) as [[r s'] t] eqn:E.
    unfold result_of in Hret. simpl in Hret. subst r.
    destruct (gl_setup_quad _ _ _ _ _ _ _ _ E) as [Hv _]. cbv zeta in Hv.
    by rewrite Hnone in Hv.
  - by apply larger_factor_of_sizes.
Qed.

(** ** Runs outside the display path *)

Lemma Prog_sat_bind {St Ev A B} (m : Prog.t St Ev A) (f : A → Prog.t St Ev B) s Q :
  Prog.sat m s (λ r s1 t1,
    match r with
    | Done a => Prog.sat (f a) s1 (λ r2 s2 t2, Q r2 s2 (t1 ++ t2))
    | Raised e => Q (Raised e) s1 t1
    | Undefined => Q Undefined s1 t1
    end) →
  Prog.sat (Prog.bind m f) s Q.
Proof.
  unfold Prog.sat, Prog.bind.
  destruct (m s) as [[[a|e|] s1] t1]; simpl; [|done|done].
  by destruct (f a s1) as [[r2 s2] t2].
Qed.

Lemma Prog_sat_mono {St Ev A} (m : Prog.t St Ev A) s (P Q : result A → St → list Ev → Prop) :
  Prog.sat m s P → (∀ r s' t, P r s' t → Q r s' t) → Prog.sat m s Q.
Proof. unfold Prog.sat. auto. Qed.

Lemma Prog_sat_run {St Ev A} (m : Prog.t St Ev A) s Q r s' t :
  Prog.sat m s Q → m s = (r, s', t) → Q r s' t.
Proof. unfold Prog.sat. intros H E. by rewrite E in H. Qed.

Ltac pwp_prim :=
  unfold Prog.sat at 1;
  cbn [Prog.ret Prog.call Prog.gets Prog.modify Prog.throw Prog.undefined fst snd].

Ltac pwp :=
  repeat lazymatch goal with
    | |- Prog.sat (Prog.bind _ _) _ _ => apply Prog_sat_bind
    | |- Prog.sat (Prog.ret _) _ _ => pwp_prim
    | |- Prog.sat (Prog.call _) _ _ => pwp_prim
    | |- Prog.sat (Prog.gets _) _ _ => pwp_prim
    | |- Prog.sat (Prog.modify _) _ _ => pwp_prim
    | |- Prog.sat (Prog.throw _) _ _ => pwp_prim
    | |- Prog.sat Prog.undefined _ _ => pwp_prim
    | |- Prog.sat (if ?b then _ else _) _ _ => destruct b eqn:?
    | |- Prog.sat (match ?x with Some _ => _ | None => _ end) _ _ => destruct x eqn:?
    | |- Prog.sat (let _ := _ in _) _ _ => cbv zeta
    end.

Ltac puse spec :=
  eapply Prog_sat_mono; [apply spec|]; cbv beta.

(** ** The preview window *)

Section PreviewWindow.
Import Window.

(** The placement, in closed form. *)
Lemma place_window_spec env options m :
  x_ m = preview_x options → y_ m = preview_y options →
  width_ m = preview_width options → height_ m = preview_height options →
  Prog.sat (place_window env options) m (λ r m' t,
    t = [] ∧
    match r with
    | Done _ =>
        placement_defined env options = true ∧
        m' = if keeps_request env options
             then set_geometry (preview_x options) (preview_y options)
                    (requested_size options).1 (requested_size options).2 m
             else set_geometry 0 0 (screen_width env) (screen_height env) m
    | Raised _ => False
    | Undefined => placement_defined env options = false
    end).
Proof.
  destruct m; simpl. intros -> -> -> ->.
  unfold place_window, sum_exceeds, placement_defined, keeps_request, requested_size.
  pwp; simpl in *; rewrite ?Heqb, ?Heqb0, ?Heqb1, ?Heqb2, ?Heqb3; simpl;
    repeat match goal with
      | H : (_ <? _) = true |- _ => apply Z.ltb_lt in H
      | H : (_ <? _) = false |- _ => apply Z.ltb_ge in H
      end;
    repeat match goal with
      | |- context [?a <=? ?b] => destruct (Z.leb_spec a b); try lia
      | |- context [?a <? ?b] => destruct (Z.ltb_spec a b); try lia
      end;
    repeat match goal with
      | H : in_int _ = _ |- _ => rewrite H; clear H
      end;
    simpl; try done.
Qed.

Lemma no_border_spec env window m :
  Prog.sat (no_border env window) m (λ r m' t,
    r = Done tt ∧ m' = m ∧ t = border_calls env window).
Proof. unfold no_border, border_calls. pwp; simpl; by rewrite ?Heqb. Qed.

(** The ways makeWindow can end. *)
Lemma makeWindow_spec env options name m :
  x_ m = preview_x options → y_ m = preview_y options →
  width_ m = preview_width options → height_ m = preview_height options →
  Prog.sat (makeWindow env options name) m (λ r m' t,
    match r with
    | Done _ =>
        placement_defined env options = true ∧ env_eglChooseConfig env = true ∧
        env_eglCreateContext env ≠ 0 ∧ env_eglCreateWindowSurface env ≠ 0 ∧
        ∃ vid visinfo,
          env_eglGetConfigAttrib env = Some vid ∧ env_XGetVisualInfo env = Some visinfo ∧
          m' = set_display (display_ m) (set_egl_display (egl_display_ m)
                 (constructed_members env options)) ∧
          t = window_calls env options name vid visinfo
    | Raised e =>
        placement_defined env options = true ∧
        ((e = runtime_error "couldn't get an EGL visual config" ∧
          env_eglChooseConfig env = false ∧ t = [ eglChooseConfig ])
         ∨ (e = runtime_error ("eglGetConfigAttrib() failed" +:+ nl) ∧
            env_eglChooseConfig env = true ∧ env_eglGetConfigAttrib env = None ∧
            t = [ eglChooseConfig; eglGetConfigAttrib_NATIVE_VISUAL_ID (env_config env) ])
         ∨ (e = runtime_error "eglCreateContext failed" ∧
            env_eglChooseConfig env = true ∧ is_Some (env_eglGetConfigAttrib env) ∧
            is_Some (env_XGetVisualInfo env) ∧ env_eglCreateContext env = 0 ∧
            XFree ∉ t)
         ∨ (e = runtime_error "eglCreateWindowSurface failed" ∧
            env_eglChooseConfig env = true ∧ is_Some (env_eglGetConfigAttrib env) ∧
            is_Some (env_XGetVisualInfo env) ∧ env_eglCreateContext env ≠ 0 ∧
            env_eglCreateWindowSurface env = 0))
    | Undefined =>
        placement_defined env options = false
        ∨ (placement_defined env options = true ∧ env_eglChooseConfig env = true ∧
           is_Some (env_eglGetConfigAttrib env) ∧ env_XGetVisualInfo env = None)
    end).
Proof.
  intros Hx Hy Hw Hh. unfold makeWindow. pwp.
  puse place_window_spec; [done..|].
  intros [[]|e|] m1 t1 [-> Hr]; [|done|by auto].
  destruct Hr as [Hdef ->].
  destruct (keeps_request env options) eqn:Hk;
    repeat (pwp; try (puse no_border_spec; intros ? ? ? (-> & -> & ->)));
    cbn [fst snd app].
  all: try (split_and?; try done; (by auto 10)).
  all: try match goal with
    | H : (env_eglCreateContext _ =? 0) = true |- _ =>
        apply Z.eqb_eq in H; split; [done|]; right; right; left;
        split_and!; [done|done|by eauto|by eauto|done|];
        intros Hin; unfold border_calls in Hin; simpl in Hin;
        try match type of Hin with context [if ?b then _ else _] => destruct b end;
        simpl in Hin;
        repeat (apply elem_of_cons in Hin as [Hin|Hin]; [discriminate|]);
        by apply elem_of_nil in Hin
    end.
  all: try match goal with
    | H : (env_eglCreateWindowSurface _ =? 0) = true, H' : (env_eglCreateContext _ =? 0) = false |- _ =>
        apply Z.eqb_eq in H; apply Z.eqb_neq in H'; split; [done|]; right; right; right;
        split_and!; by eauto
    end.
  all: match goal with
    | H : (env_eglCreateWindowSurface _ =? 0) = false, H' : (env_eglCreateContext _ =? 0) = false |- _ =>
        apply Z.eqb_neq in H; apply Z.eqb_neq in H'
    end.
  all: split_and!; [done..|]; eexists _, _; split_and!; [done|done| |].
  all: unfold constructed_members, window_calls, placement; rewrite Hk, ?Heqb0;
    destruct m; reflexivity.
Qed.

(** The ways the constructor can end. *)
Lemma EglPreview_spec env options m0 :
  Prog.sat (EglPreview env options) m0 (λ r m t,
    match r with
    | Done _ =>
        env_XOpenDisplay env ≠ 0 ∧ env_eglGetDisplay env ≠ 0 ∧
        env_eglInitialize env = true ∧
        placement_defined env options = true ∧ env_eglChooseConfig env = true ∧
        env_eglCreateContext env ≠ 0 ∧ env_eglCreateWindowSurface env ≠ 0 ∧
        ∃ vid visinfo,
          env_eglGetConfigAttrib env = Some vid ∧ env_XGetVisualInfo env = Some visinfo ∧
          m = constructed_members env options ∧
          t = [ XOpenDisplay; eglGetDisplay; eglInitialize ]
              ++ window_calls env options "rpicam-app" vid visinfo
    | Raised e =>
        (e = runtime_error "Couldn't open X display" ∧ env_XOpenDisplay env = 0 ∧
         t = [ XOpenDisplay ])
        ∨ (e = runtime_error "eglGetDisplay() failed" ∧ env_XOpenDisplay env ≠ 0 ∧
           env_eglGetDisplay env = 0 ∧ t = [ XOpenDisplay; eglGetDisplay ])
        ∨ (e = runtime_error "eglInitialize() failed" ∧ env_XOpenDisplay env ≠ 0 ∧
           env_eglGetDisplay env ≠ 0 ∧ env_eglInitialize env = false ∧
           t = [ XOpenDisplay; eglGetDisplay; eglInitialize ])
        ∨ (env_XOpenDisplay env ≠ 0 ∧ env_eglGetDisplay env ≠ 0 ∧
           env_eglInitialize env = true ∧ placement_defined env options = true ∧
           ((e = runtime_error "couldn't get an EGL visual config" ∧
             env_eglChooseConfig env = false ∧
             t = [ XOpenDisplay; eglGetDisplay; eglInitialize; eglChooseConfig ])
            ∨ (e = runtime_error ("eglGetConfigAttrib() failed" +:+ nl) ∧
               env_eglChooseConfig env = true ∧ env_eglGetConfigAttrib env = None ∧
               t = [ XOpenDisplay; eglGetDisplay; eglInitialize; eglChooseConfig;
                     eglGetConfigAttrib_NATIVE_VISUAL_ID (env_config env) ])
            ∨ (e = runtime_error "eglCreateContext failed" ∧
               env_eglChooseConfig env = true ∧ is_Some (env_eglGetConfigAttrib env) ∧
               is_Some (env_XGetVisualInfo env) ∧ env_eglCreateContext env = 0 ∧
               XFree ∉ t)
            ∨ (e = runtime_error "eglCreateWindowSurface failed" ∧
               env_eglChooseConfig env = true ∧ is_Some (env_eglGetConfigAttrib env) ∧
               is_Some (env_XGetVisualInfo env) ∧ env_eglCreateContext env ≠ 0 ∧
               env_eglCreateWindowSurface env = 0)))
    | Undefined =>
        env_XOpenDisplay env ≠ 0 ∧ env_eglGetDisplay env ≠ 0 ∧
        env_eglInitialize env = true ∧
        (placement_defined env options = false
         ∨ (placement_defined env options = true ∧ env_eglChooseConfig env = true ∧
            is_Some (env_eglGetConfigAttrib env) ∧ env_XGetVisualInfo env = None))
    end).
Proof.
  unfold EglPreview. pwp; cbn [fst snd app];
    repeat match goal with
      | H : (_ =? 0) = true |- _ => apply Z.eqb_eq in H
      | H : (_ =? 0) = false |- _ => apply Z.eqb_neq in H
      end.
  1-2, 4: by auto 10.
  puse makeWindow_spec; [done..|].
  intros [[]|e|] m t.
  - intros (?&?&?&?& vid & visinfo &?&?& -> &->). split_and!; try done.
    exists vid, visinfo. split_and!; try done.
    unfold constructed_members. by destruct (placement env options) as [[[??]?]?].
  - intros (?& Hr). right; right; right. split_and!; try done.
    destruct Hr as [(->&?&->)|[(->&?&?&->)|[(->&?&?&?&?&Hfree)|(->&?&?&?&?&?)]]].
    + by left.
    + right; left. by split_and!.
    + right; right; left. split_and!; try done. intros Hin. apply Hfree.
      repeat (apply elem_of_cons in Hin as [Hin|Hin]; [discriminate|]). done.
    + right; right; right. by split_and!.
  - intros Hr. by split_and!.
Qed.

Lemma EglPreview_returns env options m0 :
  (EglPreview env options m0).1.1 = Done tt →
  placement_defined env options = true ∧
  ∃ vid visinfo,
    (EglPreview env options m0).1.2 = constructed_members env options ∧
    (EglPreview env options m0).2 =
      [ XOpenDisplay; eglGetDisplay; eglInitialize ]
      ++ window_calls env options "rpicam-app" vid visinfo.
Proof.
  pose proof (EglPreview_spec env options m0) as H. unfold Prog.sat in H.
  destruct (EglPreview env options m0) as [[r m] t]. cbn [fst snd] in *.
  intros ->. destruct H as (_&_&_&?&_&_&_& vid & visinfo &_&_&?&?). eauto.
Qed.

(** X8. The constructor returns exactly when the seven calls that it checks
    succeed, the visual is found and the sums of the placement do not
    overflow.  When it throws, the text names the first of the seven calls
    that failed, in the order of the program.  Its behaviour is undefined
    when a sum of the placement overflows, or when XGetVisualInfo finds no
    visual for the config. *)
Theorem constructor_outcome env options m0 :
  let opened :=
    env_XOpenDisplay env ≠ 0 ∧ env_eglGetDisplay env ≠ 0 ∧ env_eglInitialize env = true in
  let configured :=
    placement_defined env options = true ∧ env_eglChooseConfig env = true ∧
    is_Some (env_eglGetConfigAttrib env) in
  match (EglPreview env options m0).1.1 with
  | Done _ =>
      opened ∧ configured ∧ is_Some (env_XGetVisualInfo env) ∧
      env_eglCreateContext env ≠ 0 ∧ env_eglCreateWindowSurface env ≠ 0
  | Raised e =>
      (e = runtime_error "Couldn't open X display" ∧ env_XOpenDisplay env = 0)
      ∨ (e = runtime_error "eglGetDisplay() failed" ∧
         env_XOpenDisplay env ≠ 0 ∧ env_eglGetDisplay env = 0)
      ∨ (e = runtime_error "eglInitialize() failed" ∧
         env_XOpenDisplay env ≠ 0 ∧ env_eglGetDisplay env ≠ 0 ∧
         env_eglInitialize env = false)
      ∨ (e = runtime_error "couldn't get an EGL visual config" ∧
         opened ∧ placement_defined env options = true ∧ env_eglChooseConfig env = false)
      ∨ (e = runtime_error ("eglGetConfigAttrib() failed" +:+ nl) ∧
         opened ∧ placement_defined env options = true ∧ env_eglChooseConfig env = true ∧
         env_eglGetConfigAttrib env = None)
      ∨ (e = runtime_error "eglCreateContext failed" ∧
         opened ∧ configured ∧ is_Some (env_XGetVisualInfo env) ∧
         env_eglCreateContext env = 0)
      ∨ (e = runtime_error "eglCreateWindowSurface failed" ∧
         opened ∧ configured ∧ is_Some (env_XGetVisualInfo env) ∧
         env_eglCreateContext env ≠ 0 ∧ env_eglCreateWindowSurface env = 0)
  | Undefined =>
      opened ∧
      (placement_defined env options = false
       ∨ (configured ∧ env_XGetVisualInfo env = None))
  end.
Proof.
  cbv zeta.
  pose proof (EglPreview_spec env options m0) as H. unfold Prog.sat in H.
  destruct (EglPreview env options m0) as [[[[]|e|] m] t]; cbn [fst snd] in *.
  - destruct H as (?&?&?&?&?&?&?& vid & visinfo & Hv & Hi &_). rewrite Hv, Hi.
    by split_and!.
  - destruct H as [(->&?&_)|[(->&?&?&_)|[(->&?&?&?&_)|(?&?&?&?&H)]]];
      [by left|right; left; by split_and!|do 2 right; left; by split_and!|].
    destruct H as [(->&?&_)|[(->&?&?&_)|[(->&?&?&?&?&_)|(->&?&?&?&?&?)]]].
    + do 3 right. left. by split_and!.
    + do 4 right. left. by split_and!.
    + do 5 right. left. by split_and!.
    + do 6 right. by split_and!.
  - destruct H as (?&?&?&[?|(?&?&?&?)]); split_and!; auto.
Qed.

(** X9. When the constructor returns, the window is where [placement] says: the
    rectangle asked for (1024x768 when a dimension asked for is 0) if the
    window is not to cover the screen and the rectangle ends within the
    screen, and the whole screen otherwise.  Either way it does not pass the
    right or the bottom edge of the screen.  XCreateWindow and the size hints
    were given the rectangle that the members hold. *)
Theorem window_placement env options m0 :
  let r := EglPreview env options m0 in
  let m := r.1.2 in
  r.1.1 = Done tt →
  (x_ m, y_ m, width_ m, height_ m) = placement env options
  ∧ x_ m + width_ m ≤ screen_width env
  ∧ y_ m + height_ m ≤ screen_height env
  ∧ (∃ depth visual colormap,
       XCreateWindow (x_ m) (y_ m) (CInt.wrap_unsigned (width_ m))
         (CInt.wrap_unsigned (height_ m)) depth visual colormap ∈ r.2)
  ∧ XSetNormalHints (window_ m) (x_ m) (y_ m) (width_ m) (height_ m) ∈ r.2.
Proof.
  cbv zeta. intros Hdone.
  destruct (EglPreview_returns env options m0 Hdone) as (_ & vid & visinfo & -> & ->).
  unfold constructed_members, window_calls, placement, keeps_request.
  destruct (negb (fullscreen options)); cbn [andb];
    repeat match goal with
      | |- context [?a <=? ?b] => destruct (Z.leb_spec a b)
      end; cbn [andb fst snd x_ y_ width_ height_ window_];
    (split_and!; [done|lia|lia| |]);
    try (eexists _, _, _); rewrite !elem_of_app;
    first [right; left; by repeat constructor|do 3 right; by repeat constructor].
Qed.

(** X10. On a screen that has a width and a height, the window of a preview
    that was constructed has a width and a height other than 0: a dimension
    asked for as 0 was replaced, together with the other one, by 1024x768. *)
Theorem window_size_not_zero env options m0 :
  let r := EglPreview env options m0 in
  let m := r.1.2 in
  r.1.1 = Done tt →
  screen_width env ≠ 0 → screen_height env ≠ 0 →
  width_ m ≠ 0 ∧ height_ m ≠ 0
  ∧ (preview_width options = 0 ∨ preview_height options = 0 →
     (width_ m, height_ m) = (1024, 768)
     ∨ (x_ m, y_ m, width_ m, height_ m) = (0, 0, screen_width env, screen_height env)).
Proof.
  cbv zeta. intros Hdone Hsw Hsh.
  destruct (EglPreview_returns env options m0 Hdone) as (_ & vid & visinfo & -> & _).
  unfold constructed_members, placement, requested_size.
  destruct (keeps_request env options); cbn [x_ y_ width_ height_]; [|by auto].
  destruct (Z.eqb_spec (preview_width options) 0), (Z.eqb_spec (preview_height options) 0);
    cbn [orb fst snd]; split_and!; try done; try (by left); intros [|]; done.
Qed.

(** X11. A window that is to cover the screen is sized to the screen, but it
    is put into the full-screen state only when the server knows the atom
    _MOTIF_WM_HINTS: when XInternAtom returns None for it, no_border returns
    before it has changed any property.  When the atom is known, the Motif
    hints are sent with three of their five members unset. *)
Theorem fullscreen_needs_motif_atom env options m0 :
  let r := EglPreview env options m0 in
  let m := r.1.2 in
  let motif := env_XInternAtom env "_MOTIF_WM_HINTS" in
  r.1.1 = Done tt → fullscreen options = true →
  (x_ m, y_ m, width_ m, height_ m) = (0, 0, screen_width env, screen_height env)
  ∧ (motif = 0 → ∀ window property type data nelements,
       XChangeProperty window property type data nelements ∉ r.2)
  ∧ (motif ≠ 0 →
       XChangeProperty (window_ m) motif motif
         [ Some MWM_HINTS_DECORATIONS; None; Some 0; None; None ] 5 ∈ r.2
       ∧ XChangeProperty (window_ m) (env_XInternAtom env "_NET_WM_STATE") XA_ATOM
           [ Some (env_XInternAtom env "_NET_WM_STATE_FULLSCREEN"); Some 0 ] 1 ∈ r.2).
Proof.
  cbv zeta. intros Hdone Hfull.
  destruct (EglPreview_returns env options m0 Hdone) as (_ & vid & visinfo & -> & ->).
  unfold constructed_members, window_calls, placement, keeps_request, border_calls.
  rewrite Hfull. cbn [negb andb x_ y_ width_ height_ window_].
  split_and!; [done| |].
  - intros ->. cbn [Z.eqb app]. intros window property type data nelements Hin.
    repeat (apply elem_of_cons in Hin as [Hin|Hin]; [discriminate|]).
    by apply elem_of_nil in Hin.
  - intros Hmotif%Z.eqb_neq. rewrite Hmotif. cbn [app].
    split; by repeat constructor.
Qed.

(** X18. After a construction that returns, MaxImageSize reports the
    same value for the width and for the height: what glGetIntegerv wrote
    for GL_MAX_TEXTURE_SIZE, converted to [unsigned int], and 0 when it wrote
    nothing.  The query is made with the context current on no surface, and
    the constructor ends with no context current. *)
Theorem MaxImageSize_after_construction env options m0 :
  let r := EglPreview env options m0 in
  let m := r.1.2 in
  let size := CInt.wrap_unsigned (default 0 (env_glGetIntegerv env)) in
  r.1.1 = Done tt →
  MaxImageSize m = (size, size)
  ∧ ∃ t0, r.2 = t0 ++ [ eglMakeCurrent_no_surface (egl_context_ m);
                        glGetIntegerv_MAX_TEXTURE_SIZE;
                        eglMakeCurrent_no_surface 0 ].
Proof.
  cbv zeta. intros Hdone.
  destruct (EglPreview_returns env options m0 Hdone) as (_ & vid & visinfo & -> & ->).
  unfold constructed_members, window_calls, MaxImageSize.
  destruct (placement env options) as [[[x y] width] height].
  cbn [max_image_width_ max_image_height_ egl_context_]. split; [done|].
  eexists. rewrite !app_assoc.
  match goal with
  | |- ?t ++ ?l = _ =>
      change l with ([ XSetNormalHints (env_XCreateWindow env) x y width height;
          XSetStandardProperties (env_XCreateWindow env) "rpicam-app" x y width height;
          eglBindAPI_OPENGL_ES; eglCreateContext (env_config env); XFree;
          XMapWindow (env_XCreateWindow env); XInternAtom "WM_DELETE_WINDOW" false;
          XSetWMProtocols (env_XCreateWindow env) (env_XInternAtom env "WM_DELETE_WINDOW");
          eglCreateWindowSurface (env_config env) (env_XCreateWindow env) ]
        ++ [ eglMakeCurrent_no_surface (env_eglCreateContext env);
             glGetIntegerv_MAX_TEXTURE_SIZE; eglMakeCurrent_no_surface 0 ])
  end.
  by rewrite app_assoc.
Qed.
End PreviewWindow.

(** ** Quit *)

Section QuitLoop.
Import Window.
Variable long_bits : Z.

Lemma Quit_unfold m queue :
  Quit long_bits m queue =
  match XCheckTypedWindowEvent (window_ m) queue with
  | Some (event, rest) =>
      if is_delete_window long_bits m event then (true, rest)
      else Quit long_bits m rest
  | None => (false, queue)
  end.
Proof. apply Quit_equation. Qed.

Lemma XCheckTypedWindowEvent_shorter w queue event rest :
  XCheckTypedWindowEvent w queue = Some (event, rest) → (length rest < length queue)%nat.
Proof.
  revert event rest. induction queue as [|e queue IH]; intros event rest; simpl; [done|].
  destruct (client_message_of w e).
  - intros [= <- <-]. lia.
  - destruct (XCheckTypedWindowEvent w queue) as [[e1 q1]|] eqn:E1; [|done].
    intros [= <- <-]. simpl. specialize (IH _ _ eq_refl). lia.
Qed.

(** An event that is not a ClientMessage of the window stays where it is. *)
Lemma Quit_cons_other m e queue :
  client_message_of (window_ m) e = false →
  Quit long_bits m (e :: queue) =
  ((Quit long_bits m queue).1, e :: (Quit long_bits m queue).2).
Proof.
  intros He. remember (length queue) as n eqn:Hn. revert queue Hn.
  induction n as [n IH] using lt_wf_ind. intros queue ->.
  rewrite (Quit_unfold m (e :: queue)), (Quit_unfold m queue). simpl. rewrite He.
  destruct (XCheckTypedWindowEvent (window_ m) queue) as [[event rest]|] eqn:E; [|done].
  destruct (is_delete_window long_bits m event); [done|].
  apply (IH (length rest)); [|done]. by eapply XCheckTypedWindowEvent_shorter.
Qed.

(** A ClientMessage of the window at the head of the queue is taken. *)
Lemma Quit_cons_client m e queue :
  client_message_of (window_ m) e = true →
  Quit long_bits m (e :: queue) =
  if is_delete_window long_bits m e then (true, queue) else Quit long_bits m queue.
Proof. intros He. rewrite (Quit_unfold m (e :: queue)). simpl. by rewrite He. Qed.

Lemma Quit_cases m queue :
  let w := window_ m in
  let closes e := client_message_of w e && is_delete_window long_bits m e in
  let kept := filter (λ e, client_message_of w e = false) in
  (Quit long_bits m queue = (false, kept queue) ∧ Forall (λ e, closes e = false) queue)
  ∨ (∃ before e after,
       queue = before ++ e :: after ∧ closes e = true ∧
       Forall (λ x, closes x = false) before ∧
       Quit long_bits m queue = (true, kept before ++ after)).
Proof.
  cbv zeta. induction queue as [|e queue IH].
  - left. by rewrite Quit_unfold.
  - destruct (client_message_of (window_ m) e) eqn:He.
    + rewrite (Quit_cons_client _ _ _ He).
      destruct (is_delete_window long_bits m e) eqn:Hd.
      * right. exists [], e, queue. by rewrite He, Hd.
      * destruct IH as [[-> Hall]|(before & x & after & -> & Hx & Hall & ->)].
        -- left. rewrite filter_cons_False by (by rewrite He).
           split; [done|]. constructor; [by rewrite He, Hd|done].
        -- right. exists (e :: before), x, after.
           rewrite filter_cons_False by (by rewrite He).
           split_and!; try done. constructor; [by rewrite He, Hd|done].
    + rewrite (Quit_cons_other _ _ _ He).
      destruct IH as [[-> Hall]|(before & x & after & -> & Hx & Hall & ->)].
      * left. rewrite filter_cons_True by done.
        split; [done|]. constructor; [by rewrite He|done].
      * right. exists (e :: before), x, after.
        rewrite filter_cons_True by done.
        split_and!; try done. constructor; [by rewrite He|done].
Qed.

(** X12. Quit answers true exactly when the queue holds a ClientMessage for
    the preview window whose first datum, read as an Atom, is
    WM_DELETE_WINDOW. *)
Theorem Quit_answer m queue :
  (Quit long_bits m queue).1 = true ↔
  ∃ l0, ClientMessage (window_ m) l0 ∈ queue ∧ to_Atom long_bits l0 = wm_delete_window_ m.
Proof.
  assert (Hc : ∀ e, client_message_of (window_ m) e && is_delete_window long_bits m e = true ↔
            ∃ l0, e = ClientMessage (window_ m) l0 ∧ to_Atom long_bits l0 = wm_delete_window_ m).
  { intros [w l0|ty w]; simpl; [|split; [done|by intros (? & ? & ?)]].
    rewrite andb_true_iff, !Z.eqb_eq. split.
    - intros [-> ?]. by exists l0.
    - by intros (? & [= -> ->] & ?). }
  destruct (Quit_cases m queue) as [[-> Hall]|(before & e & after & -> & He & _ & ->)];
    cbn [fst]; split; try done.
  - intros (l0 & Hin & Hl0). rewrite Forall_forall in Hall.
    specialize (Hall _ Hin). simpl in Hall.
    apply Z.eqb_eq in Hl0. by rewrite Z.eqb_refl, Hl0 in Hall.
  - intros _. apply Hc in He as (l0 & -> & ?). exists l0. split; [|done].
    apply elem_of_app. right. by left.
Qed.

(** X13. What Quit leaves in the queue.  When it answers true it has taken
    the first close request and, from the events before it, every
    ClientMessage of the preview window; what follows the close request is
    still queued.  When it answers false it has taken every ClientMessage of
    the window.  Events of other windows and of other types stay queued, in
    their order. *)
Theorem Quit_queue m queue :
  let w := window_ m in
  let r := Quit long_bits m queue in
  let kept := filter (λ e, client_message_of w e = false) in
  if r.1
  then ∃ before l0 after,
         queue = before ++ ClientMessage w l0 :: after ∧
         to_Atom long_bits l0 = wm_delete_window_ m ∧
         (∀ l, ClientMessage w l ∈ before → to_Atom long_bits l ≠ wm_delete_window_ m) ∧
         r.2 = kept before ++ after
  else r.2 = kept queue.
Proof.
  cbv zeta.
  destruct (Quit_cases m queue) as [[-> Hall]|(before & e & after & -> & He & Hall & ->)];
    cbn [fst snd]; [done|].
  destruct e as [w l0|ty w]; simpl in He; [|done].
  apply andb_true_iff in He as [->%Z.eqb_eq Hl0%Z.eqb_eq].
  exists before, l0, after. split_and!; try done.
  intros l Hin Hl. rewrite Forall_forall in Hall. specialize (Hall _ Hin). simpl in Hall.
  apply Z.eqb_eq in Hl. by rewrite Z.eqb_refl, Hl in Hall.
Qed.
End QuitLoop.

(** ** The destructor *)

(** X14. The destructor deletes the texture of every registry entry, in key
    order, releases the context and destroys it, and only then deletes the
    overlay texture, by the name that [overlay_texture_] holds, generated or
    not.  It never calls the done callback: the buffer that [last_fd_] names
    is not handed back. *)
Theorem destructor_calls s :
  let r := Teardown.EglPreview_destructor s in
  r.1.1 = Done tt
  ∧ r.2 = (Teardown.display <$>
             (map (λ it, glDeleteTextures (Buffer.texture it.2)) (in_key_order (buffers_ s))
              ++ [ eglMakeCurrent false ]))
          ++ [ Teardown.eglDestroyContext;
               Teardown.display (glDeleteTextures (overlay_texture_ s)) ]
  ∧ (∀ fd, Teardown.display (done_callback_ fd) ∉ r.2).
Proof.
  cbv zeta.
  assert (Hrun : (Teardown.EglPreview_destructor s).2 =
    (Teardown.display <$>
       (map (λ it, glDeleteTextures (Buffer.texture it.2)) (in_key_order (buffers_ s))
        ++ [ eglMakeCurrent false ]))
    ++ [ Teardown.eglDestroyContext;
         Teardown.display (glDeleteTextures (overlay_texture_ s)) ]).
  { unfold Teardown.EglPreview_destructor, Teardown.lift, Prog.bind, Prog.call, Prog.gets.
    by rewrite Reset_run. }
  split_and!; [|done|].
  - unfold Teardown.EglPreview_destructor, Teardown.lift, Prog.bind, Prog.call, Prog.gets.
    by rewrite Reset_run.
  - intros fd. rewrite Hrun, elem_of_app, list_elem_of_fmap, !elem_of_cons, elem_of_nil.
    intros [(c & [= <-] & Hin)|[|[|]]]; try done.
    apply elem_of_app in Hin as [Hin|Hin].
    + apply list_elem_of_fmap in Hin as (it & ? & _). done.
    + apply list_elem_of_singleton in Hin. done.
Qed.

(** ** GStreamOutput *)

Section GStreamOutput.
Import GStream.

Lemma references_app object t1 t2 :
  references object (t1 ++ t2) = references object t1 + references object t2.
Proof. unfold references. induction t1 as [|e t1 IH]; simpl; lia. Qed.

(** outputBuffer leaves the members alone and gives back the one
    reference it takes. *)
Lemma outputBuffer_spec env mem timestamp_us flags m :
  Prog.sat (outputBuffer env mem timestamp_us flags) m (λ r m' t,
    m' = m ∧ ∀ object, object ≠ 0 → references object t = 0).
Proof.
  unfold outputBuffer. pwp; (split; [done|]); intros object Hobj;
    unfold references; simpl;
    destruct (Z.eqb_spec (env_gst_buffer_new_allocate env) object); lia.
Qed.

Lemma outputs_references os m object :
  object ≠ 0 → references object (outputs os m) = 0.
Proof.
  intros Hobj. revert m. induction os as [|o os IH]; intros m; simpl; [done|].
  pose proof (outputBuffer_spec (out_env o) (out_mem o) (out_timestamp_us o) (out_flags o) m)
    as (Hm & Hr).
  fold (output o) in Hm, Hr. rewrite references_app, Hr, Hm, IH by done. done.
Qed.

(** The constructor returns exactly when the pipeline was parsed without
    an error and holds an element named appsrc. *)
Lemma GStreamOutput_spec env description m0 :
  Prog.sat (GStreamOutput env description) m0 (λ r m t,
    pipeline m = env_gst_parse_launch env ∧
    match r with
    | Done _ =>
        env_gst_parse_launch env ≠ 0 ∧ env_error env = None ∧
        env_gst_bin_get_by_name env ≠ 0 ∧
        appsrc m = env_gst_bin_get_by_name env ∧
        t = [ gst_init;
              gst_parse_launch description (pipeline m);
              gst_bin_get_by_name (pipeline m) "appsrc" (appsrc m);
              gst_element_set_state (pipeline m) GST_STATE_PLAYING ]
    | Raised e =>
        (∃ message, env_error env = Some message ∧
           e = runtime_error ("Failed to create GStreamer pipeline: " +:+ message) ∧
           t = [ gst_init; gst_parse_launch description (pipeline m) ])
        ∨ (env_gst_parse_launch env ≠ 0 ∧ env_error env = None ∧
           env_gst_bin_get_by_name env = 0 ∧
           e = runtime_error "Pipeline does not contain an appsrc element" ∧
           t = [ gst_init; gst_parse_launch description (pipeline m);
                 gst_bin_get_by_name (pipeline m) "appsrc" 0 ])
    | Undefined =>
        env_gst_parse_launch env = 0 ∧ env_error env = None ∧
        t = [ gst_init; gst_parse_launch description 0 ]
    end).
Proof.
  unfold GStreamOutput. pwp; simpl; (split; [done|]).
  - left. by eexists.
  - apply orb_prop in Heqb as [Hp%Z.eqb_eq|Hd]; [by rewrite Hp|].
    apply bool_decide_eq_true in Hd. by destruct Hd.
  - apply orb_false_elim in Heqb as [Hp%Z.eqb_neq Hd].
    apply bool_decide_eq_false in Hd.
    destruct (env_error env) as [message|] eqn:E; [destruct Hd; by eexists|].
    apply Z.eqb_eq in Heqb0. right. by rewrite Heqb0.
  - apply orb_false_elim in Heqb as [Hp%Z.eqb_neq Hd].
    apply bool_decide_eq_false in Hd.
    destruct (env_error env) as [message|] eqn:E; [destruct Hd; by eexists|].
    apply Z.eqb_neq in Heqb0. done.
Qed.

(** X15. outputBuffer returns only when the buffer was mapped and the push
    answered GST_FLOW_OK, and then it has copied [mem] into the buffer,
    pushed that buffer to [appsrc], dropped its reference and logged both
    lines.  A map that fails throws before anything is copied or pushed; a
    push that answers anything else throws after the buffer was pushed and
    unreferenced.  The second line is logged on return only, and the members
    are never written. *)
Theorem outputBuffer_outcome env mem timestamp_us flags m :
  let r := outputBuffer env mem timestamp_us flags m in
  let size := Z.of_nat (length mem) in
  let b := env_gst_buffer_new_allocate env in
  let pushed :=
    [ LOG 2 (log_Start size); gst_buffer_new_allocate size b; gst_buffer_map_WRITE b;
      memcpy b mem; gst_buffer_unmap b;
      g_signal_emit_by_name (appsrc m) "push-buffer" b; gst_buffer_unref b ] in
  r.1.2 = m
  ∧ match r.1.1 with
    | Done _ =>
        env_gst_buffer_map env = true ∧ env_push_buffer env = Some GST_FLOW_OK ∧
        r.2 = pushed ++ [ LOG 2 (log_Finish size) ]
    | Raised e =>
        (env_gst_buffer_map env = false ∧
         e = runtime_error "Failed to map GStreamer buffer for writing" ∧
         r.2 = [ LOG 2 (log_Start size); gst_buffer_new_allocate size b;
                 gst_buffer_map_WRITE b; gst_buffer_unref b ])
        ∨ (env_gst_buffer_map env = true ∧
           (∃ ret, env_push_buffer env = Some ret ∧ ret ≠ GST_FLOW_OK) ∧
           e = runtime_error "Failed to push buffer to GStreamer pipeline" ∧
           r.2 = pushed)
    | Undefined =>
        env_gst_buffer_map env = true ∧ env_push_buffer env = None ∧ r.2 = pushed
    end.
Proof.
  cbv zeta. unfold outputBuffer, Prog.bind, Prog.call, Prog.gets, Prog.ret, Prog.throw,
    Prog.undefined.
  destruct (env_gst_buffer_map env); simpl; [|by auto].
  destruct (env_push_buffer env) as [ret|]; simpl; [|done].
  destruct (Z.eqb_spec ret GST_FLOW_OK) as [->|Hne]; simpl; [done|].
  split; [done|]. right. split_and!; try done. by exists ret.
Qed.

Lemma GStreamOutput_destructor_run m :
  pipeline m ≠ 0 → appsrc m ≠ 0 →
  GStreamOutput_destructor m =
  (Done tt, m, [ gst_element_set_state (pipeline m) GST_STATE_NULL;
                 gst_object_unref (pipeline m); gst_object_unref (appsrc m) ]).
Proof.
  intros Hp%Z.eqb_neq Ha%Z.eqb_neq.
  unfold GStreamOutput_destructor, Prog.bind, Prog.gets, Prog.call, Prog.ret.
  by rewrite Hp, Ha.
Qed.

(** X16. Over the life of an output whose constructor returned, every reference
    that the code took is given back: the pipeline and the appsrc element
    are unreferenced once each by the destructor, and each call of
    outputBuffer unreferences the buffer it allocated, whether it returns or
    throws. *)
Theorem lifetime_references_balanced env description os m0 object :
  (GStreamOutput env description m0).1.1 = Done tt →
  object ≠ 0 →
  references object (lifetime env description os m0) = 0.
Proof.
  intros Hdone Hobj. unfold lifetime.
  pose proof (GStreamOutput_spec env description m0) as H. unfold Prog.sat in H.
  destruct (GStreamOutput env description m0) as [[r m] t]. cbn [fst snd] in *.
  subst r. destruct H as (Hp & Hp0 & _ & Ha0 & Ha & ->).
  rewrite !references_app, outputs_references by done.
  rewrite GStreamOutput_destructor_run by congruence.
  rewrite Hp, Ha. unfold references; simpl.
  destruct (env_gst_parse_launch env =? object), (env_gst_bin_get_by_name env =? object);
    lia.
Qed.

(** X17. When the constructor throws after gst_parse_launch returned a
    pipeline, that pipeline is never unreferenced: the constructor does not
    release it, and no destructor runs for an object whose constructor
    threw. *)
Theorem constructor_failure_keeps_pipeline env description m0 e :
  (GStreamOutput env description m0).1.1 = Raised e →
  env_gst_parse_launch env ≠ 0 →
  references (env_gst_parse_launch env) (GStreamOutput env description m0).2 = 1
  ∧ (∀ object, gst_object_unref object ∉ (GStreamOutput env description m0).2).
Proof.
  intros Hr Hp0.
  pose proof (GStreamOutput_spec env description m0) as H. unfold Prog.sat in H.
  destruct (GStreamOutput env description m0) as [[r m] t]. cbn [fst snd] in *.
  subst r. destruct H as (Hp & [(message & _ & _ & ->)|(_ & _ & _ & _ & ->)]);
    rewrite Hp; (split; [|intros object Hin;
      repeat (apply elem_of_cons in Hin as [Hin|Hin]; [discriminate|]);
      by apply elem_of_nil in Hin]);
    unfold references; simpl; rewrite Z.eqb_refl; [done|].
  by destruct (env_gst_parse_launch env).
Qed.
End GStreamOutput.

(** ** The theorems at sample inputs *)

(** The scenario of the specification: two 640x480 frames, then Reset.
    The first Show releases nothing, the second releases the first handle,
    and Reset releases nothing. *)
Example scenario_101_102_reset :
  let r1 := Show sample_env 101 460800 (sample_info 640 480) (constructed 1024 768) in
  let r2 := Show sample_env 102 460800 (sample_info 640 480) (state_of r1) in
  let r3 := Reset (state_of r2) in
  protocol (trace_of r1) = [Swapped]
  ∧ protocol (trace_of r2) = [Swapped; Released 101]
  ∧ protocol (trace_of r3) = []
  ∧ last_fd_ (state_of r3) = -1.
Proof. cbv zeta. split_and!; by vm_compute. Qed.

(** The rows of the table, for libcamera's constants. *)
Example colour_table_rows :
  spec_colour_table (tag_of None) = (EGL_ITU_REC601_EXT, EGL_YUV_NARROW_RANGE_EXT)
  ∧ spec_colour_table (tag_of (Some ColorSpace.Smpte170m))
    = (EGL_ITU_REC601_EXT, EGL_YUV_NARROW_RANGE_EXT)
  ∧ spec_colour_table (tag_of (Some ColorSpace.Sycc))
    = (EGL_ITU_REC601_EXT, EGL_YUV_FULL_RANGE_EXT)
  ∧ spec_colour_table (tag_of (Some ColorSpace.Rec709))
    = (EGL_ITU_REC709_EXT, EGL_YUV_NARROW_RANGE_EXT)
  ∧ spec_colour_table (tag_of (Some ColorSpace.Rec2020))
    = (EGL_ITU_REC601_EXT, EGL_YUV_NARROW_RANGE_EXT).
Proof. by split_and!. Qed.

(** A driver that refuses the import: Show throws, naming the fd, before
    anything is drawn; the entry it leaves is no longer a new one, so a
    second Show of the fd does not import again. *)
Example refused_import :
  let r1 := Show refusing_env 101 460800 (sample_info 640 480) (constructed 1024 768) in
  let r2 := Show refusing_env 101 460800 (sample_info 640 480) (state_of r1) in
  result_of r1 = Thrown (runtime_error "failed to import fd 101")
  ∧ protocol (trace_of r1) = []
  ∧ is_registered (state_of r1) 101 = true
  ∧ result_of r2 = Returned tt
  ∧ imports (trace_of r2) = [].
Proof. cbv zeta. split_and!; by vm_compute. Qed.

Lemma release_one_frame_late_witness :
  let fs := [sample_frame 101; sample_frame 102; sample_frame 102] in
  let r := present_all fs (constructed 1024 768) in
  length r.2 = length fs
  ∧ (∀ t, r.2 !! 0%nat = Some t → protocol t = [Swapped])
  ∧ (∀ i f t, fs !! i = Some f → r.2 !! S i = Some t →
       protocol t = [Swapped; Released (frame_fd f)])
  ∧ last_fd_ r.1.2 = default (-1) (frame_fd <$> last fs).
Proof.
  cbv zeta.
  apply (release_one_frame_late
           [sample_frame 101; sample_frame 102; sample_frame 102]
           (constructed 1024 768)).
  - reflexivity.
  - repeat constructor; unfold is_handle; simpl; lia.
  - vm_compute. reflexivity.
Defined.

Lemma resolve_idempotent_witness :
  let first := resolve sample_env 101 460800 (sample_info 640 480) (constructed 1024 768) in
  let later := after_ops [op_Show (sample_frame 102); op_SetOverlay None 0 0] first.1.2 in
  resolve sample_env 101 1 (sample_info 320 240) later = (Returned (Some 11), later, []).
Proof.
  cbv zeta.
  apply (resolve_idempotent sample_env 101 460800 (sample_info 640 480)
           (constructed 1024 768) (Some 11) _
           (resolve sample_env 101 460800 (sample_info 640 480) (constructed 1024 768)).2).
  - unfold is_handle. lia.
  - vm_compute. reflexivity.
Defined.

Lemma import_colour_hints_witness :
  let info := sample_info 640 480 in
  let a := attribs_for 101 info in
  (EGL_YUV_COLOR_SPACE_HINT_EXT a, EGL_SAMPLE_RANGE_HINT_EXT a)
  = spec_colour_table (tag_of (StreamInfo.colour_space info)).
Proof.
  cbv zeta.
  apply (import_colour_hints sample_env 101 460800 (sample_info 640 480)
           (constructed 1024 768)).
  vm_compute. left.
Defined.

Lemma import_plane_layout_witness :
  let a := attribs_for 101 (sample_info 640 480) in
  (EGL_DMA_BUF_PLANE0_FD_EXT a = 101 ∧ EGL_DMA_BUF_PLANE1_FD_EXT a = 101 ∧
   EGL_DMA_BUF_PLANE2_FD_EXT a = 101 ∧ EGL_DMA_BUF_PLANE0_OFFSET_EXT a = 0)
  ∧ EGL_DMA_BUF_PLANE0_PITCH_EXT a = 640
  ∧ (EGL_DMA_BUF_PLANE1_OFFSET_EXT a = 640 * 480 ∧
     EGL_DMA_BUF_PLANE1_PITCH_EXT a = 640 / 2)
  ∧ (EGL_DMA_BUF_PLANE2_OFFSET_EXT a = 640 * 480 + (640 / 2) * (480 / 2) ∧
     EGL_DMA_BUF_PLANE2_PITCH_EXT a = 640 / 2).
Proof.
  cbv zeta.
  destruct (import_plane_layout sample_env 101 460800 (sample_info 640 480)
              (constructed 1024 768) (attribs_for 101 (sample_info 640 480)))
    as [Hfd Hlayout].
  - vm_compute. left.
  - split; [exact Hfd|]. apply Hlayout.
    unfold layout_fits, sample_info. cbn [StreamInfo.stride StreamInfo.height].
    change (640 / 2) with 320. change (480 / 2) with 240. lia.
Defined.

Lemma overlay_allocated_from_window_witness :
  let r := Show sample_env 101 460800 (sample_info 640 480) (constructed 1024 768) in
  overlay_images (trace_of r) = [(CInt.sdiv 1024 4, CInt.sdiv 768 4, None)].
Proof.
  cbv zeta.
  apply (overlay_allocated_from_window sample_env 101 460800 (sample_info 640 480)
           (constructed 1024 768)
           (state_of (Show sample_env 101 460800 (sample_info 640 480) (constructed 1024 768)))).
  - reflexivity.
  - reflexivity.
  - vm_compute. reflexivity.
Defined.

Lemma import_failure_propagates_witness :
  let s := state_of (Show sample_env 101 460800 (sample_info 640 480) (constructed 1024 768)) in
  let r := Show refusing_env 102 460800 (sample_info 640 480) s in
  let A := attribs_for 102 (sample_info 640 480) in
  imports (trace_of r) = [A]
  ∧ result_of r = Thrown (import_failure 102)
  ∧ ∃ t0, trace_of r = t0 ++ [eglCreateImageKHR A].
Proof.
  cbv zeta.
  destruct (import_failure_propagates refusing_env 102 460800 (sample_info 640 480)
              (state_of (Show sample_env 101 460800 (sample_info 640 480)
                           (constructed 1024 768))))
    as (_ & _ & _ & _ & Hattempt & _).
  destruct (Hattempt eq_refl) as [(Hfirst & _)|(Hi & Hr)].
  - vm_compute in Hfirst. discriminate Hfirst.
  - split; [exact Hi|]. exact Hr.
Defined.


(** ** Where the specification departs from the code *)

(** The swap fails, Show returns, and nothing has been logged. *)
Lemma swap_failure_not_logged :
  let env := with_eglSwapBuffers false sample_env in
  let r := Show env 101 460800 (sample_info 640 480) (constructed 1024 768) in
  env_eglSwapBuffers env = false
  ∧ result_of r = Returned tt
  ∧ logs (trace_of r) = [].
Proof. cbv zeta. split_and!; by vm_compute. Qed.

(** A stride and a height of 65536: the product wraps in [unsigned int],
    and plane 1 is put at offset 0. *)
Lemma plane_offset_wraps :
  let info := StreamInfo.Build 65536 65536 65536 None in
  let r := Show sample_env 101 0 info (constructed 1024 768) in
  imports (trace_of r) = [attribs_for 101 info]
  ∧ EGL_DMA_BUF_PLANE1_OFFSET_EXT (attribs_for 101 info) = 0
  ∧ StreamInfo.stride info * StreamInfo.height info = 4294967296.
Proof. cbv zeta. split_and!; by vm_compute. Qed.

(** A 640x480 frame in a 1024x768 window: the overlay texture is allocated
    256x192, not 160x120. *)
Lemma overlay_not_quarter_of_frame :
  let info := sample_info 640 480 in
  let r := Show sample_env 101 460800 info (constructed 1024 768) in
  overlay_images (trace_of r) = [(256, 192, None)]
  ∧ (StreamInfo.width info / 4, StreamInfo.height info / 4) = (160, 120)
  ∧ overlay_images (trace_of r)
    ≠ [(StreamInfo.width info / 4, StreamInfo.height info / 4, None)].
Proof. cbv zeta. split_and!; by vm_compute. Qed.


(** ** The further theorems at sample inputs *)

Lemma failed_import_is_not_retried_witness :
  let s := constructed 1024 768 in
  let s1 := state_of (Show refusing_env 101 460800 (sample_info 640 480) s) in
  let r' := Show sample_env 101 460800 (sample_info 640 480) s1 in
  is_registered s1 101 = true
  ∧ result_of r' = Returned tt
  ∧ imports (trace_of r') = []
  ∧ trace_of r' = draw_calls sample_env s1 None ++ eglSwapBuffers :: release_calls (last_fd_ s)
  ∧ glBindTexture GL_TEXTURE_EXTERNAL_OES None ∈ trace_of r'.
Proof.
  cbv zeta.
  apply (failed_import_is_not_retried refusing_env 101 460800 (sample_info 640 480)
           (constructed 1024 768) sample_env 460800 (sample_info 640 480)).
  - lia.
  - reflexivity.
  - vm_compute. reflexivity.
Defined.

Lemma failed_setup_is_retried_witness :
  let s1 := state_of (Show no_context_env 101 460800 (sample_info 640 480)
                        (constructed 1024 768)) in
  first_time_ s1 = true
  ∧ is_registered s1 101 = false
  ∧ ∃ t', trace_of (Show sample_env 101 460800 (sample_info 640 480) s1)
          = eglMakeCurrent true :: t'.
Proof.
  cbv zeta.
  apply (failed_setup_is_retried no_context_env 101 460800 (sample_info 640 480)
           (constructed 1024 768) (runtime_error "eglMakeCurrent failed")).
  - reflexivity.
  - vm_compute. reflexivity.
  - by left.
Defined.

Lemma Reset_after_failed_Show_witness :
  let s1 := state_of (Show refusing_env 101 460800 (sample_info 640 480)
                        (constructed 1024 768)) in
  is_Some (buffers_ s1 !! 101) ∧ None ∈ deleted (trace_of (Reset s1)).
Proof.
  cbv zeta.
  apply (Reset_after_failed_Show refusing_env 101 460800 (sample_info 640 480)
           (constructed 1024 768) (import_failure 101)).
  - reflexivity.
  - vm_compute. reflexivity.
Defined.

Lemma set_up_runs_once_witness :
  let s := state_of (Show sample_env 101 460800 (sample_info 640 480) (constructed 1024 768)) in
  let r := Show sample_env 102 115200 (sample_info 320 240) s in
  let s' := state_of r in
  (prog_ s' = prog_ s ∧ verts_ s' = verts_ s ∧ overlay_prog_ s' = overlay_prog_ s ∧
   overlay_texture_ s' = overlay_texture_ s ∧ gl_setup_verts s' = gl_setup_verts s ∧
   first_time_ s' = false)
  ∧ match result_of r with
    | Returned _ =>
        overlay_images (trace_of r) = [] ∧
        glUseProgram (prog_ s) ∈ trace_of r ∧
        glVertexAttribPointer 0 (verts_ s) ∈ trace_of r
    | Thrown e => e = import_failure 102
    end.
Proof.
  cbv zeta.
  apply (set_up_runs_once sample_env 102 115200 (sample_info 320 240)
           (state_of (Show sample_env 101 460800 (sample_info 640 480)
                        (constructed 1024 768)))).
  vm_compute. reflexivity.
Defined.

Lemma overlay_flag_survives_Reset_witness :
  let s := state_of (SetOverlay (Some [x01; x02; x03; x04]%byte) 1 1
             (state_of (Show sample_env 101 460800 (sample_info 640 480)
                          (constructed 1024 768)))) in
  let s0 := state_of (Reset s) in
  let r := Show sample_env 102 460800 (sample_info 640 480) s0 in
  overlay_present_ s0 = true
  ∧ (result_of r = Returned tt →
     overlay_present_ (state_of r) = true
     ∧ overlay_texture_ (state_of r) = Some (env_overlay_texture sample_env)
     ∧ overlay_images (trace_of r)
       = [(CInt.sdiv (width_ s) 4, CInt.sdiv (height_ s) 4, None)]
     ∧ ∃ t1 texture,
         trace_of r = t1 ++ draw_calls sample_env (state_of r) texture ++ [eglSwapBuffers]).
Proof.
  cbv zeta.
  apply (overlay_flag_survives_Reset sample_env 102 460800 (sample_info 640 480)
           (state_of (SetOverlay (Some [x01; x02; x03; x04]%byte) 1 1
              (state_of (Show sample_env 101 460800 (sample_info 640 480)
                           (constructed 1024 768)))))).
  vm_compute. reflexivity.
Defined.

Lemma first_quad_spans_window_witness :
  let r := gl_setup sample_env 640 480 1024 768 (constructed 1024 768) in
  let factors := scale_factors 640 480 1024 768 in
  let w_ratio := F32.div (F32.of_int 640) (F32.of_int 1024) in
  let h_ratio := F32.div (F32.of_int 480) (F32.of_int 768) in
  verts_ (state_of r) = Some (quad factors.1 factors.2)
  ∧ (if F32.ltb w_ratio h_ratio then factors.2 else factors.1) = F32.one.
Proof.
  cbv zeta.
  apply (first_quad_spans_window sample_env 640 480 1024 768 (constructed 1024 768));
    try lia; try (vm_compute; reflexivity).
Defined.

Lemma window_placement_witness :
  let r := Window.EglPreview Window.sample_env Window.sample_options Window.unset in
  let m := r.1.2 in
  (Window.x_ m, Window.y_ m, Window.width_ m, Window.height_ m)
    = Window.placement Window.sample_env Window.sample_options
  ∧ Window.x_ m + Window.width_ m ≤ Window.screen_width Window.sample_env
  ∧ Window.y_ m + Window.height_ m ≤ Window.screen_height Window.sample_env
  ∧ (∃ depth visual colormap,
       Window.XCreateWindow (Window.x_ m) (Window.y_ m)
         (CInt.wrap_unsigned (Window.width_ m)) (CInt.wrap_unsigned (Window.height_ m))
         depth visual colormap ∈ r.2)
  ∧ Window.XSetNormalHints (Window.window_ m) (Window.x_ m) (Window.y_ m)
      (Window.width_ m) (Window.height_ m) ∈ r.2.
Proof.
  cbv zeta.
  apply (window_placement Window.sample_env Window.sample_options Window.unset).
  vm_compute. reflexivity.
Defined.

Lemma window_size_not_zero_witness :
  let r := Window.EglPreview Window.sample_env Window.sample_options Window.unset in
  let m := r.1.2 in
  Window.width_ m ≠ 0 ∧ Window.height_ m ≠ 0
  ∧ (Window.preview_width Window.sample_options = 0
     ∨ Window.preview_height Window.sample_options = 0 →
     (Window.width_ m, Window.height_ m) = (1024, 768)
     ∨ (Window.x_ m, Window.y_ m, Window.width_ m, Window.height_ m)
       = (0, 0, Window.screen_width Window.sample_env,
          Window.screen_height Window.sample_env)).
Proof.
  cbv zeta.
  apply (window_size_not_zero Window.sample_env Window.sample_options Window.unset).
  - vm_compute. reflexivity.
  - vm_compute. discriminate.
  - vm_compute. discriminate.
Defined.

Lemma fullscreen_needs_motif_atom_witness :
  let r := Window.EglPreview Window.sample_env Window.fullscreen_options Window.unset in
  let m := r.1.2 in
  let motif := Window.env_XInternAtom Window.sample_env "_MOTIF_WM_HINTS" in
  (Window.x_ m, Window.y_ m, Window.width_ m, Window.height_ m)
    = (0, 0, Window.screen_width Window.sample_env, Window.screen_height Window.sample_env)
  ∧ (motif = 0 → ∀ window property type data nelements,
       Window.XChangeProperty window property type data nelements ∉ r.2)
  ∧ (motif ≠ 0 →
       Window.XChangeProperty (Window.window_ m) motif motif
         [ Some Window.MWM_HINTS_DECORATIONS; None; Some 0; None; None ] 5 ∈ r.2
       ∧ Window.XChangeProperty (Window.window_ m)
           (Window.env_XInternAtom Window.sample_env "_NET_WM_STATE") Window.XA_ATOM
           [ Some (Window.env_XInternAtom Window.sample_env "_NET_WM_STATE_FULLSCREEN");
             Some 0 ] 1 ∈ r.2).
Proof.
  cbv zeta.
  apply (fullscreen_needs_motif_atom Window.sample_env Window.fullscreen_options Window.unset).
  - vm_compute. reflexivity.
  - reflexivity.
Defined.

Lemma lifetime_references_balanced_witness :
  GStream.references 10
    (GStream.lifetime GStream.sample_env "appsrc name=appsrc ! fakesink"
       GStream.sample_outputs GStream.unset) = 0.
Proof.
  apply (lifetime_references_balanced GStream.sample_env "appsrc name=appsrc ! fakesink"
           GStream.sample_outputs GStream.unset 10).
  - vm_compute. reflexivity.
  - lia.
Defined.

Lemma constructor_failure_keeps_pipeline_witness :
  let r := GStream.GStreamOutput GStream.no_appsrc_env "fakesrc ! fakesink" GStream.unset in
  GStream.references (GStream.env_gst_parse_launch GStream.no_appsrc_env) r.2 = 1
  ∧ (∀ object, GStream.gst_object_unref object ∉ r.2).
Proof.
  cbv zeta.
  apply (constructor_failure_keeps_pipeline GStream.no_appsrc_env "fakesrc ! fakesink"
           GStream.unset (runtime_error "Pipeline does not contain an appsrc element")).
  - vm_compute. reflexivity.
  - vm_compute. discriminate.
Defined.

Lemma MaxImageSize_after_construction_witness :
  let r := Window.EglPreview Window.sample_env Window.sample_options Window.unset in
  let m := r.1.2 in
  let size := CInt.wrap_unsigned (default 0 (Window.env_glGetIntegerv Window.sample_env)) in
  Window.MaxImageSize m = (size, size)
  ∧ ∃ t0, r.2 = t0 ++ [ Window.eglMakeCurrent_no_surface (Window.egl_context_ m);
                        Window.glGetIntegerv_MAX_TEXTURE_SIZE;
                        Window.eglMakeCurrent_no_surface 0 ].
Proof.
  cbv zeta.
  apply (MaxImageSize_after_construction Window.sample_env Window.sample_options
           Window.unset).
  vm_compute. reflexivity.
Defined.
